(** * AdaSure Pro accessibility widget: CSS engine, contrast filters, font scaling

    A shallow embedding of the widget's tool engine:
    - [utils/cssGenerator]: [generateCSS], [wrapCSSToSelector],
      [generateCSSFromConfig], [injectToolCSS];
    - [enum/Filters]: the [FILTERS] table;
    - [tools/enableContrast] and [tools/adjustFontSize].

    JavaScript strings are modelled as [string], read as sequences of code
    units below 256; JavaScript numbers are IEEE-754 binary64 values, modelled
    by the primitive [float]s. *)

From Stdlib Require Import Bool Arith Lia ZArith ZifyNat List String Ascii Floats.
Import ListNotations.

(** ** JavaScript strings *)

Module JsString.
Local Open Scope string_scope.

(** ECMAScript [WhiteSpace] and [LineTerminator] code units below 256:
    TAB, LF, VT, FF, CR, SP and NBSP. *)
Definition isWhiteSpace (c : ascii) : bool :=
  let n := nat_of_ascii c in
  existsb (Nat.eqb n) [9; 10; 11; 12; 13; 32; 160]%nat.

(** [String.prototype.trimStart]. *)
Fixpoint trimStart (s : string) : string :=
  match s with
  | EmptyString => EmptyString
  | String c s' => if isWhiteSpace c then trimStart s' else s
  end.

(** [String.prototype.trimEnd]. *)
Fixpoint trimEnd (s : string) : string :=
  match s with
  | EmptyString => EmptyString
  | String c s' =>
      match trimEnd s' with
      | EmptyString => if isWhiteSpace c then EmptyString else String c EmptyString
      | t => String c t
      end
  end.

(** [String.prototype.trim]. *)
Definition trim (s : string) : string := trimEnd (trimStart s).

(** Truthiness of a string value: only the empty string is falsy. *)
Definition nonEmpty (s : string) : bool :=
  match s with
  | EmptyString => false
  | String _ _ => true
  end.

(** Truthiness of a possibly [undefined] string. *)
Definition truthy (s : option string) : bool :=
  match s with
  | Some s => nonEmpty s
  | None => false
  end.

(** A possibly [undefined] string inside a template literal or a string
    concatenation. *)
Definition interpolate (s : option string) : string :=
  match s with
  | Some s => s
  | None => "undefined"
  end.

(** [s.replace(pat, rep)] for a string pattern: the first occurrence of [pat]
    in [s] is replaced by [rep] (no [$] pattern occurs in [rep]). *)
Fixpoint replace (pat rep s : string) : string :=
  if prefix pat s then rep ++ substring (length pat) (length s - length pat) s
  else match s with
       | EmptyString => EmptyString
       | String c s' => String c (replace pat rep s')
       end.

(** Every code unit of [s] is white space. *)
Fixpoint allWhiteSpace (s : string) : bool :=
  match s with
  | EmptyString => true
  | String c s' => isWhiteSpace c && allWhiteSpace s'
  end.

End JsString.

(** ** utils/cssGenerator: the CSS compiler *)

Module CssGenerator.
Import JsString.
Local Open Scope string_scope.

(** [IToolConfig]; every field is optional in the source ([undefined] is
    [None]).  [styles] lists the enumerable properties of the style object in
    [for ... in] order. *)
Record IToolConfig : Type := {
  id : option string;
  selector : option string;
  childrenSelector : option (list string);
  styles : option (list (string * string));
  css : option string;
  enable : option bool
}.

Definition browserPrefixes : list string := ["-o-"; "-ms-"; "-moz-"; "-webkit-"; ""].
Definition propertiesNeedPrefix : list string := ["filter"].

(** [propertiesNeedPrefix.includes(key)]. *)
Definition includes (l : list string) (key : string) : bool :=
  existsb (String.eqb key) l.

(** The body of the inner [forEach] of [generateCSS]: one declaration is
    appended to [css]. *)
Definition appendDeclaration (key value : string) (css prefix : string) : string :=
  css ++ (prefix ++ key ++ ": " ++ value ++ " !important; ").

(** The body of the [for (let key in styles)] loop. *)
Definition appendProperty (css : string) (kv : string * string) : string :=
  let prefixes := if includes propertiesNeedPrefix (fst kv) then browserPrefixes else [""] in
  fold_left (appendDeclaration (fst kv) (snd kv)) prefixes css.

Definition generateCSS (styles : option (list (string * string))) : string :=
  let css :=
    match styles with
    | Some props => fold_left appendProperty props ""
    | None => ""
    end in
  trim css.

(** The body of the [forEach] of [wrapCSSToSelector]. *)
Definition appendRule (selector css : string) (output childSelector : string) : string :=
  let fullSelector :=
    if nonEmpty childSelector then selector ++ " " ++ childSelector else selector in
  output ++ (fullSelector ++ " { " ++ css ++ " } ").

(** [childrenSelector] defaults to [[""]] when it is [undefined]. *)
Definition wrapCSSToSelector (selector : string) (childrenSelector : option (list string))
    (css : string) : string :=
  let children := match childrenSelector with Some l => l | None => [""] end in
  trim (fold_left (appendRule selector css) children "").

Definition generateCSSFromConfig (config : option IToolConfig) : string :=
  let output :=
    match config with
    | Some config =>
        let generatedCSS := generateCSS (styles config) in
        let output :=
          if nonEmpty generatedCSS && truthy (selector config) then
            wrapCSSToSelector (interpolate (selector config))
              (Some (match childrenSelector config with Some l => l | None => [""] end))
              generatedCSS
          else if nonEmpty generatedCSS then generatedCSS
          else "" in
        if truthy (css config) then output ++ (" " ++ interpolate (css config)) else output
    | None => ""
    end in
  trim output.

(** *** The compiler as the specification words it *)

(** The declarations of one property: one per prefix of the fixed list when
    the property needs vendor prefixes, one unprefixed declaration
    otherwise; each ends in [!important;]. *)
Definition declarationsOf (kv : string * string) : list string :=
  map (fun prefix => prefix ++ fst kv ++ ": " ++ snd kv ++ " !important;")
      (if String.eqb (fst kv) "filter" then ["-o-"; "-ms-"; "-moz-"; "-webkit-"; ""] else [""]).

Definition declarations (props : list (string * string)) : list string :=
  flat_map declarationsOf props.

(** [renderDeclarations]: the declarations separated by a single space,
    trimmed. *)
Definition renderDeclarations (props : list (string * string)) : string :=
  trim (String.concat " " (declarations props)).

(** One rule of [scopeDeclarations]: ["fullSelector { block } "]. *)
Definition ruleOf (selector block childSelector : string) : string :=
  (if nonEmpty childSelector then selector ++ " " ++ childSelector else selector)
  ++ " { " ++ block ++ " } ".

(** [scopeDeclarations]: the rules concatenated in list order. *)
Definition scopeDeclarations (selector : string) (children : list string) (block : string) : string :=
  String.concat "" (map (ruleOf selector block) children).

(** [config.css], space-prefixed, when it is present. *)
Definition extraCSS (config : IToolConfig) : string :=
  if truthy (css config) then " " ++ interpolate (css config) else "".

(** [compile] read word for word: the rules of [scopeDeclarations] (or the
    bare block), then [config.css] space-prefixed, then one trim. *)
Definition compileAsWorded (config : IToolConfig) : string :=
  let block := generateCSS (styles config) in
  trim ((if truthy (selector config)
         then scopeDeclarations (interpolate (selector config))
                (match childrenSelector config with Some l => l | None => [""] end) block
         else block) ++ extraCSS config).

End CssGenerator.

(** ** The page: style resources and the root class list *)

Module Dom.
Import JsString.
Local Open Scope string_scope.

(** The part of the document the engine reads and writes: the elements that
    carry an [id], in tree order, each with its text ([innerHTML]), and the
    tokens of [document.documentElement.classList].  The elements are
    leaves, as the style resources are: an element with an [id] inside
    another element with an [id] is outside this model. *)
Record Document : Type := {
  elements : list (string * string);
  classList : list string
}.

(** [document.getElementById(id)]: the first element in tree order. *)
Fixpoint getElementById (id : string) (els : list (string * string)) : option string :=
  match els with
  | [] => None
  | (i, text) :: rest => if String.eqb i id then Some text else getElementById id rest
  end.

(** [document.getElementById(id)?.remove()] on leaves: the first element with
    the id goes.  (In a tree the element goes with all it contains, elements
    with other ids included.) *)
Fixpoint removeById (id : string) (els : list (string * string)) : list (string * string) :=
  match els with
  | [] => []
  | (i, text) :: rest => if String.eqb i id then rest else (i, text) :: removeById id rest
  end.

(** The text of the element [id] is replaced, or a new element is appended
    when there is none. *)
Fixpoint createOrReplace (id text : string) (els : list (string * string)) : list (string * string) :=
  match els with
  | [] => [(id, text)]
  | (i, t) :: rest =>
      if String.eqb i id then (i, text) :: rest else (i, t) :: createOrReplace id text rest
  end.

(** [DOMTokenList.contains], [add], [remove] and [toggle(token, force)], for
    a token that is a class name: not empty and without white space.  (On
    another token [add], [remove] and [toggle] throw; the tool ids of the
    engine, [asw-] and a name, are class names.) *)
Definition contains (token : string) (l : list string) : bool :=
  existsb (String.eqb token) l.

Definition add (token : string) (l : list string) : list string :=
  if contains token l then l else (l ++ [token])%list.

Definition remove (token : string) (l : list string) : list string :=
  filter (fun t => negb (String.eqb t token)) l.

Definition toggle (token : string) (force : bool) (l : list string) : list string :=
  if force then add token l else remove token l.

(** The number of elements that carry the id. *)
Definition countId (id : string) (els : list (string * string)) : nat :=
  List.length (filter (fun e => String.eqb (fst e) id) els).

(** Ids are unique in the document, and so are the tokens of the class list
    (a [DOMTokenList] is an ordered set). *)
Definition wellFormed (d : Document) : Prop :=
  NoDup (map fst (elements d)) /\ NoDup (classList d).

(** Modelled from the spec: [utils/addStylesheet] is imported by
    [cssGenerator] and is not among the sources.  Section 4.2: when the
    compiled CSS is non-empty, the style resource identified by the resource
    id is created or replaced with that text; when it is empty, no resource
    is created. *)
Definition addStylesheet (css id : string) (d : Document) : Document :=
  if nonEmpty css
  then {| elements := createOrReplace id css (elements d); classList := classList d |}
  else d.

Definition emptyPage : Document := {| elements := []; classList := [] |}.

Import CssGenerator.

(** The id of the style resource and the marker class of a tool. *)
Definition toolIdOf (config : IToolConfig) : string :=
  "asw-" ++ match id config with Some i => i | None => "" end.

Definition injectToolCSS (config : IToolConfig) (d : Document) : Document :=
  let id := match id config with Some i => i | None => "" end in
  let enable := match enable config with Some b => b | None => false end in
  let toolId := "asw-" ++ id in
  let d1 :=
    if enable then addStylesheet (generateCSSFromConfig (Some config)) toolId d
    else {| elements := removeById toolId (elements d); classList := classList d |} in
  {| elements := elements d1; classList := toggle toolId enable (classList d1) |}.

End Dom.

(** ** enum/Filters and tools/enableContrast *)

Module Contrast.
Import JsString CssGenerator Dom.
Local Open Scope string_scope.

(** An uncaught JavaScript exception. *)
Inductive JsError : Type :=
| ReferenceError (name : string).

(** How a call ends: it returns, or it throws; either way the document is
    left as it was at that moment. *)
Inductive Completion : Type :=
| Returned (d : Document)
| Threw (e : JsError) (d : Document).

Definition documentOf (c : Completion) : Document :=
  match c with
  | Returned d => d
  | Threw _ d => d
  end.

(** [Array.prototype.forEach] over a callback that may throw: the first
    exception ends the loop. *)
Fixpoint forEach {A : Type} (callback : A -> Document -> Completion) (l : list A)
    (d : Document) : Completion :=
  match l with
  | [] => Returned d
  | x :: rest =>
      match callback x d with
      | Returned d' => forEach callback rest d'
      | Threw e d' => Threw e d'
      end
  end.

Section Filters.

(** [TEXT_SELECTORS] comes from [enum/Selectors], which is not among the
    sources. *)
Variable TEXT_SELECTORS : list string.

Definition contrastConfig (name : string) (props : list (string * string))
    (children : list string) : IToolConfig :=
  {| id := Some name;
     selector := Some ("html.asw-" ++ name);
     childrenSelector := Some children;
     styles := Some props;
     css := None;
     enable := None |}.

Definition blockElements : list string :=
  ["div"; "span"; "section"; "article"; "main"; "aside"; "header"; "footer"].

(** The [FILTERS] object, as its own properties in insertion order. *)
Definition FILTERS : list (string * IToolConfig) :=
  [ ("dark-contrast",
     contrastConfig "dark-contrast"
       [("color", "#FFFFFF"); ("fill", "#FFFFFF"); ("background-color", "#000000")]
       (TEXT_SELECTORS ++ blockElements));
    ("light-contrast",
     contrastConfig "light-contrast"
       [("color", "#000000"); ("fill", "#000000"); ("background-color", "#FFFFFF")]
       (TEXT_SELECTORS ++ blockElements));
    ("high-contrast",
     contrastConfig "high-contrast" [("filter", "contrast(125%)")] ["body"; "*"]);
    ("high-saturation",
     contrastConfig "high-saturation" [("filter", "saturate(200%)")] ["body"; "*"]);
    ("low-saturation",
     contrastConfig "low-saturation" [("filter", "saturate(50%)")] ["body"; "*"]);
    ("monochrome",
     contrastConfig "monochrome" [("filter", "grayscale(100%)")] ["body"; "*"]) ].

(** [FILTERS[name]], over the object's own properties.  (A name that
    [Object.prototype] defines, such as [constructor], is found there by the
    source; such names are outside this model.) *)
Fixpoint lookup (name : string) (table : list (string * IToolConfig)) : option IToolConfig :=
  match table with
  | [] => None
  | (k, v) :: rest => if String.eqb k name then Some v else lookup name rest
  end.

(** [{...filter, enable: true}]. *)
Definition withEnable (filter : IToolConfig) (b : bool) : IToolConfig :=
  {| id := id filter;
     selector := selector filter;
     childrenSelector := childrenSelector filter;
     styles := styles filter;
     css := css filter;
     enable := Some b |}.

(** The loop body of [enableContrast] reads an identifier [key] that neither
    the callback, nor the function, nor the module binds (the [key] of the
    [map] callback one line above is out of scope), so it is resolved in the
    global scope.  [key] is that binding: [None] when the page declares no
    global [key], as in a browser's initial global scope, and [Some k] when
    the page has declared one holding the string [k]. *)
Variable key : option string.

(** The callback of [contrastClasses.forEach]. *)
Definition clearContrast (className : string) (d : Document) : Completion :=
  let d1 := {| elements := elements d; classList := remove className (classList d) |} in
  match key with
  | None => Threw (ReferenceError "key") d1
  | Some k =>
      let filterId := option_map id (lookup (replace "asw-" "" k) FILTERS) in
      let resourceId :=
        "asw-" ++ interpolate (match filterId with Some i => i | None => None end) in
      Returned {| elements := removeById resourceId (elements d1); classList := classList d1 |}
  end.

(** [contrast] is [None] for [undefined] or [null]. *)
Definition enableContrast (contrast : option string) (d : Document) : Completion :=
  let contrastClasses := map (fun key => "asw-" ++ key) (map fst FILTERS) in
  match forEach clearContrast contrastClasses d with
  | Threw e d1 => Threw e d1
  | Returned d1 =>
      match contrast with
      | None => Returned d1
      | Some name =>
          if negb (nonEmpty name) then Returned d1
          else
            match lookup name FILTERS with
            | None => Returned d1
            | Some filter =>
                let d2 := injectToolCSS (withEnable filter true) d1 in
                Returned {| elements := elements d2;
                            classList := add ("asw-" ++ name) (classList d2) |}
            end
      end
  end.

End Filters.

(** The [monochrome] and [high-contrast] entries of [FILTERS], enabled. *)
Definition monochromeConfig : IToolConfig :=
  withEnable (contrastConfig "monochrome" [("filter", "grayscale(100%)")] ["body"; "*"]) true.

Definition highContrastConfig : IToolConfig :=
  withEnable (contrastConfig "high-contrast" [("filter", "contrast(125%)")] ["body"; "*"]) true.

(** Pages on which one filter is active: its style resource is in the
    document and its marker class is on the root. *)
Definition monochromePage : Document := injectToolCSS monochromeConfig emptyPage.
Definition highContrastPage : Document := injectToolCSS highContrastConfig emptyPage.

End Contrast.

(** ** JavaScript numbers *)

Module JsNumber.
Local Open Scope float_scope.

Definition isNegZero (x : float) : bool := is_zero x && get_sign x.
Definition isPosZero (x : float) : bool := is_zero x && negb (get_sign x).

(** The loop of [Math.min]: NaN wins, [-0] is below [+0]. *)
Fixpoint minLoop (lowest : float) (args : list float) : float :=
  match args with
  | [] => lowest
  | number :: rest =>
      if is_nan number then nan
      else
        let lowest := if isPosZero lowest && isNegZero number then neg_zero else lowest in
        let lowest := if number <? lowest then number else lowest in
        minLoop lowest rest
  end.

(** [Math.min(...args)]. *)
Definition Math_min (args : list float) : float := minLoop infinity args.

(** The loop of [Math.max]: NaN wins, [+0] is above [-0]. *)
Fixpoint maxLoop (highest : float) (args : list float) : float :=
  match args with
  | [] => highest
  | number :: rest =>
      if is_nan number then nan
      else
        let highest := if isNegZero highest && isPosZero number then zero else highest in
        let highest := if highest <? number then number else highest in
        maxLoop highest rest
  end.

(** [Math.max(...args)]. *)
Definition Math_max (args : list float) : float := maxLoop neg_infinity args.

(** [!x] on a number: NaN, [+0] and [-0] are falsy. *)
Definition falsy (x : float) : bool := is_nan x || is_zero x.

(** [Number(String(x))]: the decimal text of a number reads back as the same
    number, except that [-0] prints as ["0"]. *)
Definition roundTrip (x : float) : float := if is_zero x then zero else x.

(** [clamp(x, lo, hi)] as the specification uses it. *)
Definition clamp (x lo hi : float) : float :=
  if x <? lo then lo else if hi <? x then hi else x.

End JsNumber.

(** ** tools/adjustFontSize *)

Module FontSize.
Import JsString JsNumber.
Local Open Scope string_scope.

(** What [adjustFontSize] reads and writes of an element.
    - [tagName]: the local name, in lower case;
    - [classes]: [el.classList];
    - [ancestors]: the class lists of the ancestors, the parent first;
    - [offsetParent]: [false] when [el.offsetParent === null];
    - [textContent]: [None] for [null];
    - [aswOrgFontSize]: what [Number] reads from [el.dataset.aswOrgFontSize],
      [None] when the attribute is absent;
    - [fontSizeStyle]: the pixels of the element's own
      [font-size: ... !important] declaration, [None] when it has none;
    - [cascadedFontSize]: the pixels [getComputedStyle(el).fontSize] shows,
      at the time the element is visited, when the element has no such
      declaration of its own ([FontSizeCascade] below derives it from the
      tree, where an ancestor visited earlier may already be scaled). *)
Record HTMLElement : Type := {
  tagName : string;
  classes : list string;
  ancestors : list (list string);
  offsetParent : bool;
  textContent : option string;
  aswOrgFontSize : option float;
  fontSizeStyle : option float;
  cascadedFontSize : float
}.

(** The elements of the document in tree order, and
    [document.documentElement.dataset.aswFontMultiplier] (read through
    [Number], as [aswOrgFontSize] is). *)
Record Page : Type := {
  body : list HTMLElement;
  aswFontMultiplier : option float
}.

Definition fontSizeTags : list string :=
  ["h1"; "h2"; "h3"; "h4"; "h5"; "h6"; "p"; "a"; "dl"; "dt"; "li"; "ol"; "th"; "td";
   "span"; "blockquote"; "label"; "button"; "input"; "textarea"; "select"].

(** [el.matches(FONT_SIZE_SELECTOR)]: one of the tags, or the class
    [asw-text]. *)
Definition matchesFontSizeSelector (el : HTMLElement) : bool :=
  existsb (String.eqb (tagName el)) fontSizeTags
  || existsb (String.eqb "asw-text") (classes el).

(** [EXCLUDED_SELECTORS], each a class selector; the class names. *)
Definition EXCLUDED_SELECTORS : list string :=
  ["asw-menu"; "asw-widget"; "asw-btn"; "asw-menu-btn"].

(** [el.closest("." + cls)] is not [null]: the element or one of its
    ancestors carries the class. *)
Definition closest (cls : string) (el : HTMLElement) : bool :=
  existsb (String.eqb cls) (classes el)
  || existsb (fun ancestor => existsb (String.eqb cls) ancestor) (ancestors el).

(** [parseFloat(window.getComputedStyle(el).fontSize)]: an important
    declaration of the element itself wins the cascade. *)
Definition computedFontSize (el : HTMLElement) : float :=
  match fontSizeStyle el with
  | Some px => px
  | None => cascadedFontSize el
  end.

(** A text [n + "px"] is a font size when [n] is finite and not negative. *)
Definition isLength (n : float) : bool := is_finite n && (0 <=? n)%float.

(** [el.style.setProperty('font-size', n + 'px', 'important')]: a value that
    is no font size leaves the declaration block as it was. *)
Definition setFontSize (n : float) (el : HTMLElement) : HTMLElement :=
  if isLength n then
    {| tagName := tagName el; classes := classes el; ancestors := ancestors el;
       offsetParent := offsetParent el; textContent := textContent el;
       aswOrgFontSize := aswOrgFontSize el;
       fontSizeStyle := Some n;
       cascadedFontSize := cascadedFontSize el |}
  else el.

(** [el.dataset.aswOrgFontSize = String(n)]. *)
Definition setOrgFontSize (n : float) (el : HTMLElement) : HTMLElement :=
  {| tagName := tagName el; classes := classes el; ancestors := ancestors el;
     offsetParent := offsetParent el; textContent := textContent el;
     aswOrgFontSize := Some (roundTrip n);
     fontSizeStyle := fontSizeStyle el;
     cascadedFontSize := cascadedFontSize el |}.

(** [Math.max(8, Math.min(72, orgFontSize * multiply))]. *)
Definition newFontSize (orgFontSize multiply : float) : float :=
  Math_max [8%float; Math_min [72%float; (orgFontSize * multiply)%float]].

Section Tool.

(** [ICON_SELECTOR] comes from [enum/Selectors], which is not among the
    sources; [ICON_SELECTOR_SET.has(cls)] is membership in it. *)
Variable ICON_SELECTOR : list string.

Definition hasIconClass (el : HTMLElement) : bool :=
  existsb (fun cls => existsb (String.eqb cls) ICON_SELECTOR) (classes el).

Definition insideWidget (el : HTMLElement) : bool :=
  existsb (fun selector => closest selector el) EXCLUDED_SELECTORS.

(** [el.offsetParent === null || el.textContent?.trim() === ''] *)
Definition invisibleOrEmpty (el : HTMLElement) : bool :=
  negb (offsetParent el)
  || match textContent el with
     | Some text => String.eqb (trim text) ""
     | None => false
     end.

(** The three early returns of the callback. *)
Definition skipped (el : HTMLElement) : bool :=
  hasIconClass el || insideWidget el || invisibleOrEmpty el.

(** The base size the callback works from: the cached number when it is
    truthy, the computed font size otherwise. *)
Definition orgFontSize (el : HTMLElement) : float :=
  let cached := match aswOrgFontSize el with Some n => n | None => nan end in
  if falsy cached then computedFontSize el else cached.

(** The callback of [querySelectorAll(FONT_SIZE_SELECTOR).forEach]. *)
Definition visit (multiply : float) (el : HTMLElement) : HTMLElement :=
  if hasIconClass el then el
  else if insideWidget el then el
  else if invisibleOrEmpty el then el
  else
    let cached := match aswOrgFontSize el with Some n => n | None => nan end in
    let '(orgFontSize, el1) :=
      if falsy cached
      then (computedFontSize el, setOrgFontSize (computedFontSize el) el)
      else (cached, el) in
    setFontSize (newFontSize orgFontSize multiply) el1.

(** [multiply] is [None] when the argument is omitted; it defaults to 1. *)
Definition adjustFontSize (multiply : option float) (p : Page) : Page :=
  let multiply := match multiply with Some m => m | None => 1%float end in
  {| body := map (fun el => if matchesFontSizeSelector el then visit multiply el else el) (body p);
     aswFontMultiplier := Some (roundTrip multiply) |}.

(** The elements the tool adjusts. *)
Definition adjusted (el : HTMLElement) : bool :=
  matchesFontSizeSelector el && negb (skipped el).

End Tool.

End FontSize.

(** ** tools/adjustFontSize on a tree: the cascade read at each visit *)

Module FontSizeCascade.
Import JsString JsNumber FontSize.
Local Open Scope string_scope.

(** [adjustFontSize] reads [getComputedStyle(el).fontSize] at the moment it
    visits [el], and [querySelectorAll] lists an element after its
    ancestors: an element that inherits its font size reads what the pass
    has just written on its parent.  Here the elements stand in their tree.

    An element of the page:
    - [parent]: the position of the parent in the list of elements, [None]
      when the parent is not listed ([body]);
    - [authorFontSize]: the pixels the page's own style rules give the
      element, [None] when they give none and the size is inherited;
    - [element]: the element as [adjustFontSize] sees it; its field
      [cascadedFontSize] is supplied at every visit from the tree as it is
      then.
    Sizes in [em] or per cent and important author rules are not
    modelled. *)
Record Node : Type := {
  parent : option nat;
  authorFontSize : option float;
  element : HTMLElement
}.

(** The elements below [body] in tree order (a parent stands before its
    children), the computed font size of [body], and
    [document.documentElement.dataset.aswFontMultiplier]. *)
Record TreePage : Type := {
  nodes : list Node;
  rootFontSize : float;
  aswFontMultiplier : option float
}.

(** The element with [px] for the size the cascade gives it. *)
Definition withCascaded (px : float) (el : HTMLElement) : HTMLElement :=
  {| tagName := tagName el; classes := classes el; ancestors := ancestors el;
     offsetParent := offsetParent el; textContent := textContent el;
     aswOrgFontSize := aswOrgFontSize el;
     fontSizeStyle := fontSizeStyle el;
     cascadedFontSize := px |}.

(** What the cascade gives a node apart from its own important declaration:
    the author's size, or the computed size of the parent, [sizes] being the
    computed sizes of the elements before it in tree order. *)
Definition cascadeOf (root : float) (sizes : list float) (node : Node) : float :=
  match authorFontSize node with
  | Some px => px
  | None =>
      match parent node with
      | Some j => nth j sizes root
      | None => root
      end
  end.

(** The computed font sizes of the elements, in tree order. *)
Fixpoint computedSizes (root : float) (sizes : list float) (todo : list Node) : list float :=
  match todo with
  | [] => sizes
  | node :: rest =>
      let px := computedFontSize (withCascaded (cascadeOf root sizes node) (element node)) in
      computedSizes root (sizes ++ [px])%list rest
  end.

Section Tool.
Variable ICON_SELECTOR : list string.

(** [querySelectorAll(FONT_SIZE_SELECTOR).forEach] over the tree: the
    callback runs on the elements that match, in tree order, and each run
    reads the computed size as the runs before it have left it. *)
Fixpoint visitAll (multiply : float) (root : float) (sizes : list float) (todo : list Node)
    : list Node :=
  match todo with
  | [] => []
  | node :: rest =>
      let el0 := withCascaded (cascadeOf root sizes node) (element node) in
      let el1 := if matchesFontSizeSelector el0 then visit ICON_SELECTOR multiply el0 else el0 in
      {| parent := parent node; authorFontSize := authorFontSize node; element := el1 |}
      :: visitAll multiply root (sizes ++ [computedFontSize el1])%list rest
  end.

Definition adjustFontSize (multiply : option float) (p : TreePage) : TreePage :=
  let multiply := match multiply with Some m => m | None => 1%float end in
  {| nodes := visitAll multiply (rootFontSize p) [] (nodes p);
     rootFontSize := rootFontSize p;
     aswFontMultiplier := Some (roundTrip multiply) |}.

End Tool.

(** [<body><p>Hello <span>world</span></p></body>] on a page whose font size
    is 16px: neither element has a size of its own, neither has been
    visited. *)
Definition nestedParagraph : Node :=
  {| parent := None; authorFontSize := None;
     element := {| tagName := "p"; classes := []; ancestors := [[]; []];
                   offsetParent := true; textContent := Some "Hello world";
                   aswOrgFontSize := None; fontSizeStyle := None; cascadedFontSize := 16 |} |}.

Definition nestedSpan : Node :=
  {| parent := Some 0%nat; authorFontSize := None;
     element := {| tagName := "span"; classes := []; ancestors := [[]; []; []];
                   offsetParent := true; textContent := Some "world";
                   aswOrgFontSize := None; fontSizeStyle := None; cascadedFontSize := 16 |} |}.

Definition nestedPage : TreePage :=
  {| nodes := [nestedParagraph; nestedSpan]; rootFontSize := 16; aswFontMultiplier := None |}.

End FontSizeCascade.

(** ** tools/readableFont *)

Module ReadableFont.
Import JsString CssGenerator Dom.
Local Open Scope string_scope.

Section Selectors.

(** [ALL_ELEMENT_SELECTORS] and [TEXT_SELECTORS] come from [enum/Selectors],
    which is not among the sources. *)
Variable ALL_ELEMENT_SELECTORS : list string.
Variable TEXT_SELECTORS : list string.

Definition readableFontCSS : string := "
        @import url('https://fonts.googleapis.com/css2?family=Atkinson+Hyperlegible:ital,wght@0,400;0,700;1,400;1,700&display=swap');

        @font-face {
            font-family: 'OpenDyslexic';
            src: url('data:font/woff2;base64,d09GMgABAAAAAFRMAA4AAAAA...') format('woff2');
            font-weight: normal;
            font-style: normal;
            font-display: swap;
        }

        html.asw-readable-font {
            --font-weight-normal: 400;
            --font-weight-bold: 700;
            --letter-spacing: 0.05em;
            --line-height: 1.6;
        }

        html.asw-readable-font * {
            letter-spacing: var(--letter-spacing) !important;
            line-height: var(--line-height) !important;
        }
    ".

Definition readableFontConfig : IToolConfig :=
  {| id := Some "readable-font";
     selector := Some "html.asw-readable-font";
     childrenSelector := Some (ALL_ELEMENT_SELECTORS ++ TEXT_SELECTORS)%list;
     styles := Some [("font-family",
                      "OpenDyslexic, Atkinson Hyperlegible, Comic Sans MS, Verdana, Arial, sans-serif")];
     css := Some readableFontCSS;
     enable := None |}.

(** [{...readableFontConfig, enable}]. *)
Definition withEnable (config : IToolConfig) (b : bool) : IToolConfig :=
  {| id := id config;
     selector := selector config;
     childrenSelector := childrenSelector config;
     styles := styles config;
     css := css config;
     enable := Some b |}.

(** [enable] defaults to [false] when the argument is omitted. *)
Definition readableFont (enable : option bool) (d : Document) : Document :=
  let enable := match enable with Some b => b | None => false end in
  let d1 := injectToolCSS (withEnable readableFontConfig enable) d in
  if enable
  then {| elements := elements d1; classList := add "asw-readable-font" (classList d1) |}
  else {| elements := elements d1; classList := remove "asw-readable-font" (classList d1) |}.

End Selectors.

End ReadableFont.

(** ** SecurityManager: the rate limiter, the source checks, the hash, the log *)

Module SecurityManager.
Import JsString.
Local Open Scope string_scope.

(** A [Map] with string keys: its entries in insertion order. *)
Fixpoint mapGet {V : Type} (key : string) (m : list (string * V)) : option V :=
  match m with
  | [] => None
  | (k, v) :: rest => if String.eqb k key then Some v else mapGet key rest
  end.

(** [Map.prototype.set]: an entry with the key is updated in place, a new
    one is added last. *)
Fixpoint mapSet {V : Type} (key : string) (value : V) (m : list (string * V)) : list (string * V) :=
  match m with
  | [] => [(key, value)]
  | (k, v) :: rest =>
      if String.eqb k key then (k, value) :: rest else (k, v) :: mapSet key value rest
  end.

(** An entry of [requestCounts].  Counts and millisecond times are integers
    far below 2^53, where binary64 arithmetic is exact: they are modelled
    by [Z]. *)
Record RequestData : Type := { count : Z; resetTime : Z }.

(** [config.rateLimitConfig]. *)
Record RateLimitConfig : Type := { maxRequests : Z; windowMs : Z }.

(** [validateRequest(endpoint, clientId)] at time [now = Date.now()]: the
    answer and the new [requestCounts].  The object found in the map is
    incremented in place, which updates the entry.  On a refusal the event
    is logged ([logSecurityEvent] below), which does not touch
    [requestCounts]. *)
Definition validateRequest (config : RateLimitConfig) (clientId : option string) (now : Z)
    (requestCounts : list (string * RequestData)) : bool * list (string * RequestData) :=
  let key := if truthy clientId then interpolate clientId else "anonymous" in
  let fresh := {| count := 1; resetTime := (now + windowMs config)%Z |} in
  match mapGet key requestCounts with
  | None => (true, mapSet key fresh requestCounts)
  | Some requestData =>
      if (now >? resetTime requestData)%Z then (true, mapSet key fresh requestCounts)
      else if (count requestData >=? maxRequests config)%Z then (false, requestCounts)
      else (true, mapSet key {| count := (count requestData + 1)%Z;
                                resetTime := resetTime requestData |} requestCounts)
  end.

(** The same client calling at the given times, one after the other: the
    answers, and the map at the end. *)
Fixpoint validateRequests (config : RateLimitConfig) (clientId : option string) (times : list Z)
    (requestCounts : list (string * RequestData)) : list bool * list (string * RequestData) :=
  match times with
  | [] => ([], requestCounts)
  | now :: later =>
      let '(answer, counts1) := validateRequest config clientId now requestCounts in
      let '(answers, counts2) := validateRequests config clientId later counts1 in
      (answer :: answers, counts2)
  end.

(** [url.startsWith(prefix)]. *)
Definition startsWith (url prefix : string) : bool := String.prefix prefix url.

Definition allowedPrefixes : list string :=
  ["https://api.adasure.pro"; "https://cdn.adasure.pro";
   "https://fonts.googleapis.com"; "https://fonts.gstatic.com"].

Definition isAllowedSource (url : string) : bool :=
  existsb (fun prefix => startsWith url prefix) allowedPrefixes.

(** The [allowedSources] of [validateDOMIntegrity]. *)
Definition allowedSources : list string :=
  ["https://api.adasure.pro"; "https://cdn.adasure.pro"; "https://fonts.googleapis.com"].

(** The test under which [validateDOMIntegrity] removes an added [script]
    element, [src] being [element.getAttribute('src')] ([None] for
    [null]). *)
Definition scriptIsRemoved (src : option string) : bool :=
  truthy src && negb (existsb (fun allowed => startsWith (interpolate src) allowed) allowedSources).

(** [ToInt32]: a mathematical integer wrapped into the signed 32-bit
    range. *)
Definition toInt32 (z : Z) : Z := ((z + 2147483648) mod 4294967296 - 2147483648)%Z.

(** [a << n] and [a & b] on numbers with integer values. *)
Definition shl32 (a n : Z) : Z := toInt32 (Z.shiftl (toInt32 a) (n mod 32)).
Definition and32 (a b : Z) : Z := Z.land (toInt32 a) (toInt32 b).

(** [content.charCodeAt(i)]. *)
Definition charCode (c : ascii) : Z := Z.of_nat (nat_of_ascii c).

(** One pass of the loop of [calculateFileHash]. *)
Definition hashStep (hash : Z) (c : ascii) : Z :=
  let hash := (shl32 hash 5 - hash + charCode c)%Z in
  and32 hash hash.

(** The number [calculateFileHash] prints in base 36. *)
Definition hashCode (content : string) : Z :=
  fold_left hashStep (list_ascii_of_string content) 0%Z.

(** A logged event; [userAgent] and [url] are those of the page. *)
Record SecurityEvent : Type := {
  eventType : string;
  timestamp : Z;
  userAgent : string;
  url : string;
  details : list (string * string)
}.

(** [logSecurityEvent] on the item [adasure_security_events] of
    [localStorage], held as the list it parses to ([None] when the item is
    missing): the event is pushed and only the last 100 are kept. *)
Definition logSecurityEvent (event : SecurityEvent) (stored : option (list SecurityEvent))
    : option (list SecurityEvent) :=
  let events := match stored with Some l => l | None => [] end in
  let events := (events ++ [event])%list in
  let events :=
    if (100 <? List.length events)%nat
    then skipn (List.length events - 100) events
    else events in
  Some events.

End SecurityManager.

(** ** ComplianceReporting: the features used in a session *)

Module ComplianceReporting.
Local Open Scope string_scope.

(** [features] (a [Set], in insertion order), [sessionMetrics.featuresUsed]
    and [sessionMetrics.complianceScore]. *)
Record Session : Type := {
  features : list string;
  featuresUsed : list string;
  complianceScore : Z
}.

(** The session the constructor starts with. *)
Definition newSession : Session :=
  {| features := []; featuresUsed := []; complianceScore := 100 |}.

(** [Set.prototype.has] and [add]. *)
Definition has (s : list string) (x : string) : bool := existsb (String.eqb x) s.
Definition setAdd (s : list string) (x : string) : list string :=
  if has s x then s else (s ++ [x])%list.

(** [Math.min(100, baseScore + featureBonus)]. *)
Definition updateComplianceScore (st : Session) : Session :=
  let baseScore := 100%Z in
  let featureBonus := (Z.of_nat (List.length (features st)) * 2)%Z in
  {| features := features st;
     featuresUsed := featuresUsed st;
     complianceScore := Z.min 100 (baseScore + featureBonus) |}.

Definition trackFeatureUsage (featureName : string) (enabled : bool) (st : Session) : Session :=
  if enabled && negb (has (features st) featureName) then
    updateComplianceScore
      {| features := setAdd (features st) featureName;
         featuresUsed := (featuresUsed st ++ [featureName])%list;
         complianceScore := complianceScore st |}
  else st.

(** A sequence of calls, oldest first. *)
Definition trackAll (calls : list (string * bool)) (st : Session) : Session :=
  fold_left (fun st call => trackFeatureUsage (fst call) (snd call) st) calls st.

End ComplianceReporting.

(** ** [btoa], [atob] and the XOR obfuscation of SecurityManager *)

Module Obfuscation.
Import JsString.
Local Open Scope string_scope.

(** The base64 alphabet. *)
Definition alphabet : list ascii :=
  list_ascii_of_string "ABCDEFGHIJKLMNOPQRSTUVWXYZabcdefghijklmnopqrstuvwxyz0123456789+/".

Definition padding : ascii := "="%char.

(** The character of a six-bit value, and back. *)
Definition charOf (sextet : nat) : ascii := nth sextet alphabet "A"%char.

Fixpoint indexOf (c : ascii) (l : list ascii) : option nat :=
  match l with
  | [] => None
  | x :: rest => if Ascii.eqb x c then Some 0 else option_map S (indexOf c rest)
  end.

Definition sextetOf (c : ascii) : option nat := indexOf c alphabet.

(** The six-bit values of a byte sequence, three bytes giving four. *)
Fixpoint sextetsOf (bytes : list ascii) : list nat :=
  match bytes with
  | [] => []
  | [b1] =>
      let n1 := nat_of_ascii b1 in
      [n1 / 4; (n1 mod 4) * 16]
  | [b1; b2] =>
      let n1 := nat_of_ascii b1 in
      let n2 := nat_of_ascii b2 in
      [n1 / 4; (n1 mod 4) * 16 + n2 / 16; (n2 mod 16) * 4]
  | b1 :: b2 :: b3 :: rest =>
      let n1 := nat_of_ascii b1 in
      let n2 := nat_of_ascii b2 in
      let n3 := nat_of_ascii b3 in
      n1 / 4 :: (n1 mod 4) * 16 + n2 / 16 :: (n2 mod 16) * 4 + n3 / 64 :: n3 mod 64
      :: sextetsOf rest
  end.

Definition paddingOf (bytes : list ascii) : list ascii :=
  match List.length bytes mod 3 with
  | 1 => [padding; padding]
  | 2 => [padding]
  | _ => []
  end.

(** [btoa(s)] for a string of code units below 256 (it throws on any
    other). *)
Definition btoa (s : string) : string :=
  let bytes := list_ascii_of_string s in
  string_of_list_ascii (map charOf (sextetsOf bytes) ++ paddingOf bytes).

(** ASCII white space, which [atob] skips: TAB, LF, FF, CR and SPACE. *)
Definition isAsciiWhitespace (c : ascii) : bool :=
  existsb (Nat.eqb (nat_of_ascii c)) [9; 10; 12; 13; 32]%nat.

(** One trailing [=] is removed, if there is one. *)
Fixpoint removeTrailingPadding (data : list ascii) : list ascii :=
  match data with
  | [] => []
  | [c] => if Ascii.eqb c padding then [] else [c]
  | c :: rest => c :: removeTrailingPadding rest
  end.

(** The bytes of a sequence of six-bit values: four give three, and the
    bits left over at the end are dropped. *)
Fixpoint bytesOf (sextets : list nat) : list ascii :=
  match sextets with
  | s1 :: s2 :: s3 :: s4 :: rest =>
      ascii_of_nat (s1 * 4 + s2 / 16)
      :: ascii_of_nat ((s2 mod 16) * 16 + s3 / 4)
      :: ascii_of_nat ((s3 mod 4) * 64 + s4)
      :: bytesOf rest
  | [s1; s2; s3] =>
      [ascii_of_nat (s1 * 4 + s2 / 16); ascii_of_nat ((s2 mod 16) * 16 + s3 / 4)]
  | [s1; s2] => [ascii_of_nat (s1 * 4 + s2 / 16)]
  | _ => []
  end.

Fixpoint traverse (l : list ascii) : option (list nat) :=
  match l with
  | [] => Some []
  | c :: rest =>
      match sextetOf c, traverse rest with
      | Some s, Some ss => Some (s :: ss)
      | _, _ => None
      end
  end.

(** [atob(s)], the forgiving base64 decoding: white space is skipped; when
    the length is a multiple of four, one or two trailing [=] are removed;
    a length that leaves remainder one, or a character outside the
    alphabet, is an error ([None]). *)
Definition atob (s : string) : option string :=
  let data := filter (fun c => negb (isAsciiWhitespace c)) (list_ascii_of_string s) in
  let data :=
    if (List.length data mod 4 =? 0)%nat
    then removeTrailingPadding (removeTrailingPadding data)
    else data in
  if (List.length data mod 4 =? 1)%nat then None
  else option_map (fun sextets => string_of_list_ascii (bytesOf sextets)) (traverse data).

(** [String.fromCharCode(a ^ b)] on two code units below 256. *)
Definition xorChar (a b : ascii) : ascii :=
  match a, b with
  | Ascii a0 a1 a2 a3 a4 a5 a6 a7, Ascii b0 b1 b2 b3 b4 b5 b6 b7 =>
      Ascii (xorb a0 b0) (xorb a1 b1) (xorb a2 b2) (xorb a3 b3)
            (xorb a4 b4) (xorb a5 b5) (xorb a6 b6) (xorb a7 b7)
  end.

(** The loop of both functions, from index [i] on:
    [data.charCodeAt(i) ^ keyString.charCodeAt(i % keyString.length)]. *)
Fixpoint xorLoop (keyString : list ascii) (i : nat) (data : list ascii) : list ascii :=
  match data with
  | [] => []
  | dataChar :: rest =>
      let keyChar := nth (i mod List.length keyString) keyString Ascii.zero in
      xorChar dataChar keyChar :: xorLoop keyString (S i) rest
  end.

(** [key || 'adasure-default-key']. *)
Definition keyStringOf (key : option string) : list ascii :=
  list_ascii_of_string (if truthy key then interpolate key else "adasure-default-key").

Definition encryptSensitiveData (data : string) (key : option string) : string :=
  let encrypted := string_of_list_ascii (xorLoop (keyStringOf key) 0 (list_ascii_of_string data)) in
  btoa encrypted.

(** An error of [atob] is caught and gives the empty string. *)
Definition decryptSensitiveData (encryptedData : string) (key : option string) : string :=
  match atob encryptedData with
  | Some encrypted =>
      string_of_list_ascii (xorLoop (keyStringOf key) 0 (list_ascii_of_string encrypted))
  | None => ""
  end.

End Obfuscation.

(** * Properties *)

(** ** Trimming *)

Module JsStringFacts.
Import JsString.
Local Open Scope string_scope.

Lemma append_nil_r (s : string) : s ++ "" = s.
Proof. induction s as [|c s IH]; simpl; [reflexivity | now rewrite IH]. Qed.

Lemma append_assoc (a b c : string) : (a ++ b) ++ c = a ++ (b ++ c).
Proof. induction a as [|x a IH]; simpl; [reflexivity | now rewrite IH]. Qed.

Lemma allWhiteSpace_app (a b : string) :
  allWhiteSpace (a ++ b) = allWhiteSpace a && allWhiteSpace b.
Proof.
  induction a as [|c a IH]; simpl; [reflexivity|].
  rewrite IH. now rewrite andb_assoc.
Qed.

Lemma trimStart_blank (s : string) : allWhiteSpace s = true -> trimStart s = "".
Proof.
  induction s as [|c s IH]; simpl; [reflexivity|].
  intros H. apply andb_true_iff in H as [Hc Hs]. rewrite Hc. auto.
Qed.

Lemma trimEnd_blank (s : string) : allWhiteSpace s = true -> trimEnd s = "".
Proof.
  induction s as [|c s IH]; simpl; [reflexivity|].
  intros H. apply andb_true_iff in H as [Hc Hs]. rewrite (IH Hs), Hc. reflexivity.
Qed.

Lemma trimEnd_app_blank (s w : string) :
  allWhiteSpace w = true -> trimEnd (s ++ w) = trimEnd s.
Proof.
  intros Hw. induction s as [|c s IH]; simpl.
  - now apply trimEnd_blank.
  - now rewrite IH.
Qed.

Lemma trimStart_app (s t : string) :
  trimStart (s ++ t) = if allWhiteSpace s then trimStart t else trimStart s ++ t.
Proof.
  induction s as [|c s IH]; simpl; [reflexivity|].
  destruct (isWhiteSpace c); simpl; [exact IH | reflexivity].
Qed.

(** White space appended to a string is trimmed away. *)
Lemma trim_app_blank (s w : string) : allWhiteSpace w = true -> trim (s ++ w) = trim s.
Proof.
  intros Hw. unfold trim. rewrite trimStart_app.
  destruct (allWhiteSpace s) eqn:Hs.
  - rewrite (trimStart_blank w Hw), (trimStart_blank s Hs). reflexivity.
  - now apply trimEnd_app_blank.
Qed.

Lemma trimStart_visible (s : string) : allWhiteSpace s = false -> allWhiteSpace (trimStart s) = false.
Proof.
  induction s as [|c s IH]; simpl; [discriminate|].
  destruct (isWhiteSpace c) eqn:Hc; simpl; [exact IH | now rewrite Hc].
Qed.

Lemma trimEnd_visible (s : string) : allWhiteSpace s = false -> nonEmpty (trimEnd s) = true.
Proof.
  induction s as [|c s IH]; simpl; [discriminate|].
  destruct (isWhiteSpace c) eqn:Hc; simpl.
  - intros Hs. specialize (IH Hs). destruct (trimEnd s); [discriminate | reflexivity].
  - intros _. destruct (trimEnd s); reflexivity.
Qed.

(** A string with a visible code unit does not trim to the empty string. *)
Lemma trim_visible (s : string) : allWhiteSpace s = false -> nonEmpty (trim s) = true.
Proof.
  intros H. unfold trim. apply trimEnd_visible, trimStart_visible, H.
Qed.

End JsStringFacts.

(** ** The CSS compiler *)

Module CssGeneratorFacts.
Import JsString CssGenerator JsStringFacts.
Local Open Scope string_scope.

Definition spaced (declaration : string) : string := declaration ++ " ".

Lemma concat_empty_cons (x : string) (l : list string) :
  String.concat "" (x :: l) = x ++ String.concat "" l.
Proof. destruct l; simpl; [now rewrite append_nil_r | reflexivity]. Qed.

Lemma concat_empty_app (l1 l2 : list string) :
  String.concat "" (l1 ++ l2) = String.concat "" l1 ++ String.concat "" l2.
Proof.
  induction l1 as [|x l1 IH]; [reflexivity|].
  rewrite <- app_comm_cons, !concat_empty_cons, IH. now rewrite append_assoc.
Qed.

Lemma declaration_spaced (prefix key value : string) :
  prefix ++ key ++ ": " ++ value ++ " !important; " =
  spaced (prefix ++ key ++ ": " ++ value ++ " !important;").
Proof. unfold spaced. rewrite !append_assoc. reflexivity. Qed.

Lemma appendDeclaration_fold (key value : string) (prefixes : list string) (css : string) :
  fold_left (appendDeclaration key value) prefixes css =
  css ++ String.concat ""
           (map (fun prefix => spaced (prefix ++ key ++ ": " ++ value ++ " !important;")) prefixes).
Proof.
  revert css. induction prefixes as [|p ps IH]; intros css; cbn [fold_left map].
  - now rewrite append_nil_r.
  - rewrite IH, concat_empty_cons. unfold appendDeclaration.
    rewrite declaration_spaced. now rewrite append_assoc.
Qed.

Lemma appendProperty_spaced (css : string) (kv : string * string) :
  appendProperty css kv = css ++ String.concat "" (map spaced (declarationsOf kv)).
Proof.
  unfold appendProperty, declarationsOf. rewrite appendDeclaration_fold.
  rewrite map_map. unfold includes, propertiesNeedPrefix, browserPrefixes. simpl existsb.
  rewrite orb_false_r. reflexivity.
Qed.

Lemma generate_fold (props : list (string * string)) (css : string) :
  fold_left appendProperty props css =
  css ++ String.concat "" (map spaced (declarations props)).
Proof.
  revert css. induction props as [|kv props IH]; intros css; simpl.
  - now rewrite append_nil_r.
  - rewrite IH, appendProperty_spaced. unfold declarations. simpl.
    rewrite map_app, concat_empty_app. now rewrite append_assoc.
Qed.

(** Declarations each followed by a space are the declarations separated
    by a space, and one more space. *)
Lemma spaced_concat (ds : list string) :
  ds <> [] -> String.concat "" (map spaced ds) = String.concat " " ds ++ " ".
Proof.
  induction ds as [|d ds IH]; [congruence|]. intros _.
  destruct ds as [|d' ds].
  - reflexivity.
  - change (String.concat "" (map spaced (d :: d' :: ds)))
      with (spaced d ++ "" ++ String.concat "" (map spaced (d' :: ds))).
    change (String.concat " " (d :: d' :: ds)) with (d ++ " " ++ String.concat " " (d' :: ds)).
    rewrite IH by discriminate. unfold spaced. simpl. now rewrite !append_assoc.
Qed.

Lemma generateCSS_render (props : list (string * string)) :
  generateCSS (Some props) = renderDeclarations props.
Proof.
  unfold generateCSS, renderDeclarations. rewrite generate_fold. simpl.
  destruct (declarations props) as [|d ds] eqn:E; [reflexivity|].
  rewrite spaced_concat by discriminate. now apply trim_app_blank.
Qed.

(** C3.  [generateCSS] renders every property of the style object as its
    declarations, in property order: the five prefixed forms [-o-], [-ms-],
    [-moz-], [-webkit-] and unprefixed, in this order, for [filter], and one
    unprefixed declaration for any other property; each declaration ends in
    [!important;]; the result is the declarations separated by one space,
    trimmed.  A lone [filter] gives five declarations, a lone [color] one. *)
Theorem generateCSS_vendor_prefixes :
  (forall props : list (string * string),
     generateCSS (Some props) =
     trim (String.concat " "
             (flat_map
                (fun kv =>
                   map (fun prefix => prefix ++ fst kv ++ ": " ++ snd kv ++ " !important;")
                       (if String.eqb (fst kv) "filter"
                        then ["-o-"; "-ms-"; "-moz-"; "-webkit-"; ""]
                        else [""]))
                props)))
  /\ (forall props d, In d (declarations props) -> exists body, d = body ++ " !important;")
  /\ declarations [("filter", "grayscale(100%)")] =
       ["-o-filter: grayscale(100%) !important;";
        "-ms-filter: grayscale(100%) !important;";
        "-moz-filter: grayscale(100%) !important;";
        "-webkit-filter: grayscale(100%) !important;";
        "filter: grayscale(100%) !important;"]
  /\ generateCSS (Some [("filter", "grayscale(100%)")]) =
       "-o-filter: grayscale(100%) !important; -ms-filter: grayscale(100%) !important; -moz-filter: grayscale(100%) !important; -webkit-filter: grayscale(100%) !important; filter: grayscale(100%) !important;"
  /\ declarations [("color", "#fff")] = ["color: #fff !important;"]
  /\ generateCSS (Some [("color", "#fff")]) = "color: #fff !important;".
Proof.
  split; [exact generateCSS_render|].
  split; [|repeat split; reflexivity].
  intros props d Hd. unfold declarations in Hd.
  apply in_flat_map in Hd as [kv [_ Hd]]. unfold declarationsOf in Hd.
  apply in_map_iff in Hd as [prefix [<- _]].
  exists (prefix ++ fst kv ++ ": " ++ snd kv). now rewrite !append_assoc.
Qed.

(** *** Scoping and [generateCSSFromConfig] *)

Lemma appendRule_fold (sel block : string) (children : list string) (output : string) :
  fold_left (appendRule sel block) children output =
  output ++ scopeDeclarations sel children block.
Proof.
  unfold scopeDeclarations.
  revert output. induction children as [|child rest IH]; intros output; cbn [fold_left map].
  - now rewrite append_nil_r.
  - rewrite IH, concat_empty_cons. unfold appendRule, ruleOf.
    now rewrite !append_assoc.
Qed.

Lemma wrapCSSToSelector_scope (sel : string) (children : list string) (block : string) :
  wrapCSSToSelector sel (Some children) block = trim (scopeDeclarations sel children block).
Proof. unfold wrapCSSToSelector. now rewrite appendRule_fold. Qed.

(** A style object with a property compiles to a non-empty block. *)
Lemma generateCSS_nonEmpty (kv : string * string) (props : list (string * string)) :
  nonEmpty (generateCSS (Some (kv :: props))) = true.
Proof.
  unfold generateCSS. apply trim_visible. rewrite generate_fold.
  cbn [append]. unfold declarations. cbn [flat_map].
  rewrite map_app, concat_empty_app, allWhiteSpace_app.
  apply andb_false_iff. left.
  unfold declarationsOf.
  destruct (if (fst kv =? "filter")%string then _ else _) as [|p ps] eqn:E.
  - destruct (fst kv =? "filter")%string; discriminate.
  - cbn [map]. rewrite concat_empty_cons. unfold spaced.
    rewrite !allWhiteSpace_app. cbn [append allWhiteSpace]. cbn.
    now rewrite !andb_false_r.
Qed.

(** C8, as the code has it.  For a config whose style object has a property:
    with a selector, the rules ["fullSelector { block } "] of the children
    ([[""]] when there are none given), concatenated in list order and
    trimmed; without one, the bare block; then [config.css], space-prefixed,
    when present; the whole trimmed. *)
Theorem generateCSSFromConfig_compile (config : IToolConfig) (props : list (string * string)) :
  styles config = Some props -> props <> [] ->
  generateCSSFromConfig (Some config) =
  trim ((if truthy (selector config)
         then trim (String.concat ""
                      (map (fun childSelector =>
                              (if nonEmpty childSelector
                               then interpolate (selector config) ++ " " ++ childSelector
                               else interpolate (selector config))
                              ++ " { " ++ generateCSS (Some props) ++ " } ")
                           (match childrenSelector config with
                            | Some l => l
                            | None => [""]
                            end)))
         else generateCSS (Some props))
        ++ (if truthy (css config) then " " ++ interpolate (css config) else "")).
Proof.
  intros Hstyles Hprops. destruct props as [|kv props]; [congruence|].
  unfold generateCSSFromConfig. rewrite Hstyles, generateCSS_nonEmpty.
  cbn [andb]. rewrite wrapCSSToSelector_scope.
  unfold scopeDeclarations, ruleOf.
  destruct (truthy (selector config)), (truthy (css config));
    rewrite ?append_nil_r; reflexivity.
Qed.

Definition scopedWithExtra : IToolConfig :=
  {| id := Some "demo";
     selector := Some "html.asw-demo";
     childrenSelector := None;
     styles := Some [("color", "red")];
     css := Some "a { top: 0 }";
     enable := None |}.

Lemma generateCSSFromConfig_compile_witness :
  generateCSSFromConfig (Some scopedWithExtra) =
  "html.asw-demo { color: red !important; } a { top: 0 }".
Proof.
  rewrite (@generateCSSFromConfig_compile scopedWithExtra [("color", "red")]);
    [reflexivity | reflexivity | discriminate].
Defined.

(** C8, as it is worded, fails: the rule keeps its trailing space when it is
    not trimmed before [config.css] is appended, and two spaces separate the
    rule from the extra CSS. *)
Lemma compileAsWorded_differs :
  compileAsWorded scopedWithExtra = "html.asw-demo { color: red !important; }  a { top: 0 }"
  /\ generateCSSFromConfig (Some scopedWithExtra) = "html.asw-demo { color: red !important; } a { top: 0 }"
  /\ generateCSSFromConfig (Some scopedWithExtra) <> compileAsWorded scopedWithExtra.
Proof. repeat split; try reflexivity. discriminate. Qed.

End CssGeneratorFacts.

(** ** The style injector *)

Module DomFacts.
Import JsString CssGenerator Dom.
Local Open Scope string_scope.

Lemma createOrReplace_twice (id t1 t2 : string) (els : list (string * string)) :
  createOrReplace id t2 (createOrReplace id t1 els) = createOrReplace id t2 els.
Proof.
  induction els as [|[i t] rest IH]; simpl.
  - now rewrite String.eqb_refl.
  - destruct (i =? id) eqn:E; simpl; rewrite E; [reflexivity | now rewrite IH].
Qed.

Lemma createOrReplace_ids (id text : string) (els : list (string * string)) :
  map fst (createOrReplace id text els) =
  if existsb (fun e => fst e =? id) els then map fst els else (map fst els ++ [id])%list.
Proof.
  induction els as [|[i t] rest IH]; simpl; [reflexivity|].
  destruct (i =? id) eqn:E; simpl; [reflexivity|].
  rewrite IH. now destruct (existsb _ rest).
Qed.

Lemma existsb_id_In (id : string) (els : list (string * string)) :
  existsb (fun e => fst e =? id) els = true <-> In id (map fst els).
Proof.
  rewrite existsb_exists, in_map_iff. split.
  - intros [e [He E]]. apply String.eqb_eq in E. eauto.
  - intros [e [E He]]. exists e. split; [exact He | now apply String.eqb_eq].
Qed.

Lemma createOrReplace_NoDup (id text : string) (els : list (string * string)) :
  NoDup (map fst els) -> NoDup (map fst (createOrReplace id text els)).
Proof.
  intros H. rewrite createOrReplace_ids.
  destruct (existsb _ els) eqn:E; [exact H|].
  apply NoDup_app; [exact H | repeat constructor; intros [] | ].
  intros x Hx [<-|[]]. apply existsb_id_In in Hx. congruence.
Qed.

Lemma getElementById_createOrReplace (id text : string) (els : list (string * string)) :
  getElementById id (createOrReplace id text els) = Some text.
Proof.
  induction els as [|[i t] rest IH]; simpl.
  - now rewrite String.eqb_refl.
  - destruct (i =? id) eqn:E; simpl; rewrite E; [reflexivity | exact IH].
Qed.

Lemma countId_absent (id : string) (els : list (string * string)) :
  ~ In id (map fst els) -> countId id els = 0.
Proof.
  unfold countId. induction els as [|[i t] rest IH]; simpl; [reflexivity|].
  intros H. destruct (i =? id) eqn:E.
  - apply String.eqb_eq in E. tauto.
  - apply IH. tauto.
Qed.

Lemma countId_present (id : string) (els : list (string * string)) :
  NoDup (map fst els) -> In id (map fst els) -> countId id els = 1.
Proof.
  unfold countId. induction els as [|[i t] rest IH]; simpl; [tauto|].
  intros Hnd Hin. inversion Hnd as [|? ? Hni Hnd']; subst.
  destruct (i =? id) eqn:E.
  - apply String.eqb_eq in E. subst i. simpl. f_equal. now apply countId_absent.
  - apply String.eqb_neq in E. destruct Hin as [?|Hin]; [congruence|]. now apply IH.
Qed.

Lemma createOrReplace_In (id text : string) (els : list (string * string)) :
  In id (map fst (createOrReplace id text els)).
Proof.
  rewrite createOrReplace_ids. destruct (existsb _ els) eqn:E.
  - now apply existsb_id_In.
  - apply in_or_app. right. now left.
Qed.

Lemma removeById_absent (id : string) (els : list (string * string)) :
  ~ In id (map fst els) -> removeById id els = els.
Proof.
  induction els as [|[i t] rest IH]; simpl; [reflexivity|].
  intros H. destruct (i =? id) eqn:E.
  - apply String.eqb_eq in E. tauto.
  - f_equal. apply IH. tauto.
Qed.

Lemma removeById_incl (id x : string) (els : list (string * string)) :
  In x (map fst (removeById id els)) -> In x (map fst els).
Proof.
  induction els as [|[i t] rest IH]; simpl; [tauto|].
  destruct (i =? id); simpl; tauto.
Qed.

Lemma removeById_NoDup (id : string) (els : list (string * string)) :
  NoDup (map fst els) -> NoDup (map fst (removeById id els)).
Proof.
  induction els as [|[i t] rest IH]; simpl; [auto|].
  intros H. inversion H as [|? ? Hni Hnd]; subst.
  destruct (i =? id); [exact Hnd|]. simpl. constructor; [|auto].
  intros Hx. apply Hni. eapply removeById_incl, Hx.
Qed.

Lemma removeById_gone (id : string) (els : list (string * string)) :
  NoDup (map fst els) -> ~ In id (map fst (removeById id els)).
Proof.
  induction els as [|[i t] rest IH]; simpl; [tauto|].
  intros H. inversion H as [|? ? Hni Hnd]; subst.
  destruct (i =? id) eqn:E.
  - apply String.eqb_eq in E. now subst.
  - apply String.eqb_neq in E. simpl. intros [?|?]; [congruence | now apply IH].
Qed.

Lemma contains_In (token : string) (l : list string) : contains token l = true <-> In token l.
Proof.
  unfold contains. rewrite existsb_exists. split.
  - intros [x [Hx E]]. apply String.eqb_eq in E. now subst.
  - intros H. exists token. split; [exact H | apply String.eqb_refl].
Qed.

Lemma add_contains (token : string) (l : list string) : contains token (add token l) = true.
Proof.
  unfold add. destruct (contains token l) eqn:E; [exact E|].
  apply contains_In, in_or_app. right. now left.
Qed.

Lemma add_twice (token : string) (l : list string) : add token (add token l) = add token l.
Proof. unfold add at 1. now rewrite add_contains. Qed.

Lemma remove_twice (token : string) (l : list string) : remove token (remove token l) = remove token l.
Proof.
  unfold remove. induction l as [|x l IH]; simpl; [reflexivity|].
  destruct (x =? token) eqn:E; simpl; [exact IH | rewrite E; now rewrite IH].
Qed.

Lemma add_NoDup (token : string) (l : list string) : NoDup l -> NoDup (add token l).
Proof.
  intros H. unfold add. destruct (contains token l) eqn:E; [exact H|].
  apply NoDup_app; [exact H | repeat constructor; intros [] |].
  intros x Hx [<-|[]]. apply contains_In in Hx. congruence.
Qed.

Lemma remove_NoDup (token : string) (l : list string) : NoDup l -> NoDup (remove token l).
Proof. apply NoDup_filter. Qed.

Lemma remove_gone (token : string) (l : list string) : ~ In token (remove token l).
Proof.
  unfold remove. rewrite filter_In. intros [_ H]. now rewrite String.eqb_refl in H.
Qed.

(** A token of a duplicate-free class list occurs exactly once. *)
Lemma count_occ_add (token : string) (l : list string) :
  NoDup l -> count_occ string_dec (add token l) token = 1.
Proof.
  intros H. apply NoDup_count_occ'; [now apply add_NoDup|].
  apply contains_In, add_contains.
Qed.

Lemma injectToolCSS_wellFormed (config : IToolConfig) (d : Document) :
  wellFormed d -> wellFormed (injectToolCSS config d).
Proof.
  intros [He Hc]. unfold injectToolCSS, addStylesheet, toggle, wellFormed.
  destruct (match enable config with Some b => b | None => false end); simpl.
  - destruct (nonEmpty _); simpl; split; auto using createOrReplace_NoDup, add_NoDup.
  - split; auto using removeById_NoDup, remove_NoDup.
Qed.

Lemma injectToolCSS_twice (c1 c2 : IToolConfig) (d : Document) :
  toolIdOf c1 = toolIdOf c2 -> enable c1 = Some true -> enable c2 = Some true ->
  nonEmpty (generateCSSFromConfig (Some c2)) = true ->
  injectToolCSS c2 (injectToolCSS c1 d) = injectToolCSS c2 d.
Proof.
  unfold toolIdOf, injectToolCSS, addStylesheet, toggle. intros Hid E1 E2 Hcss.
  rewrite E1, E2, Hcss, Hid. cbn [elements classList].
  destruct (nonEmpty (generateCSSFromConfig (Some c1))); cbn [elements classList];
    rewrite ?createOrReplace_twice, add_twice; reflexivity.
Qed.

Lemma injectToolCSS_again (config : IToolConfig) (d : Document) :
  wellFormed d -> injectToolCSS config (injectToolCSS config d) = injectToolCSS config d.
Proof.
  intros [He _]. unfold injectToolCSS, addStylesheet, toggle.
  destruct (match enable config with Some b => b | None => false end).
  - destruct (nonEmpty (generateCSSFromConfig (Some config))) eqn:Hcss; cbn [elements classList];
      rewrite ?Hcss; cbn [elements classList]; rewrite ?createOrReplace_twice, add_twice; reflexivity.
  - cbn [elements classList]. rewrite remove_twice.
    rewrite (removeById_absent _ (removeById _ (elements d))); [reflexivity|].
    now apply removeById_gone.
Qed.

(** C2, amended.  Spec-modelled injection ([addStylesheet]).  On a document
    whose ids are unique, [injectToolCSS] with the same config a second time
    changes nothing.  With [enable = true] the marker class is on the root
    exactly once after two calls; when the compiled CSS is not empty there
    is exactly one resource with the tool's id and it holds that CSS, also
    when the first call was made with another config of the same id (the
    text is replaced); when the compiled CSS is empty the resources are
    left as they were, and none is created. *)
Theorem injectToolCSS_idempotent (config : IToolConfig) (d : Document) :
  wellFormed d ->
  let twice := injectToolCSS config (injectToolCSS config d) in
  twice = injectToolCSS config d
  /\ wellFormed twice
  /\ (enable config = Some true ->
      count_occ string_dec (classList twice) (toolIdOf config) = 1
      /\ (nonEmpty (generateCSSFromConfig (Some config)) = true ->
          countId (toolIdOf config) (elements twice) = 1
          /\ getElementById (toolIdOf config) (elements twice)
             = Some (generateCSSFromConfig (Some config))
          /\ forall other : IToolConfig,
               toolIdOf other = toolIdOf config -> enable other = Some true ->
               injectToolCSS config (injectToolCSS other d) = twice)
      /\ (generateCSSFromConfig (Some config) = "" -> elements twice = elements d)).
Proof.
  intros Hwf twice. subst twice. rewrite (injectToolCSS_again config d Hwf).
  split; [reflexivity|]. split; [now apply injectToolCSS_wellFormed|].
  intros Hen. destruct Hwf as [He Hc].
  split; [|split].
  - unfold injectToolCSS, addStylesheet, toggle. fold (toolIdOf config). rewrite Hen.
    cbn [classList]. destruct (nonEmpty _); cbn [classList]; now apply count_occ_add.
  - intros Hcss. split; [|split].
    + unfold injectToolCSS, addStylesheet. fold (toolIdOf config). rewrite Hen, Hcss.
      cbn [elements].
      apply countId_present; [now apply createOrReplace_NoDup | apply createOrReplace_In].
    + unfold injectToolCSS, addStylesheet. fold (toolIdOf config). rewrite Hen, Hcss.
      cbn [elements]. apply getElementById_createOrReplace.
    + intros other Hid Hen'. now apply injectToolCSS_twice.
  - intros Hcss. unfold injectToolCSS, addStylesheet. rewrite Hen, Hcss. reflexivity.
Qed.

Definition monochromeConfig : IToolConfig :=
  {| id := Some "monochrome";
     selector := Some "html.asw-monochrome";
     childrenSelector := Some ["body"; "*"];
     styles := Some [("filter", "grayscale(100%)")];
     css := None;
     enable := Some true |}.

Lemma emptyPage_wellFormed : wellFormed emptyPage.
Proof. split; constructor. Defined.

Lemma injectToolCSS_idempotent_witness :
  injectToolCSS monochromeConfig (injectToolCSS monochromeConfig emptyPage)
  = injectToolCSS monochromeConfig emptyPage
  /\ countId "asw-monochrome"
       (elements (injectToolCSS monochromeConfig (injectToolCSS monochromeConfig emptyPage))) = 1.
Proof.
  destruct (injectToolCSS_idempotent monochromeConfig emptyPage emptyPage_wellFormed) as [H1 [_ H2]].
  split; [exact H1|].
  destruct (H2 eq_refl) as [_ [H3 _]]. destruct (H3 eq_refl) as [H4 _]. exact H4.
Defined.

(** A tool without styles and without extra CSS. *)
Definition bareConfig : IToolConfig :=
  {| id := Some "bare";
     selector := Some "html.asw-bare";
     childrenSelector := None;
     styles := None;
     css := None;
     enable := Some true |}.

(** C2, as it is worded, fails: a config that compiles to no CSS has no
    style resource after two activations, not exactly one. *)
Lemma injectToolCSS_no_resource :
  generateCSSFromConfig (Some bareConfig) = ""
  /\ injectToolCSS bareConfig (injectToolCSS bareConfig emptyPage)
     = {| elements := []; classList := ["asw-bare"] |}
  /\ countId "asw-bare"
       (elements (injectToolCSS bareConfig (injectToolCSS bareConfig emptyPage))) = 0.
Proof. repeat split. Qed.

End DomFacts.

(** ** The contrast tool *)

Module ContrastFacts.
Import JsString CssGenerator Dom Contrast.
Local Open Scope string_scope.

Section Filters.
Variable TEXT_SELECTORS : list string.

(** Without a global [key], the first pass of the clearing loop removes the
    class [asw-dark-contrast] and then throws: no call of [enableContrast]
    gets past it. *)
Lemma enableContrast_throws (contrast : option string) (d : Document) :
  enableContrast TEXT_SELECTORS None contrast d =
  Threw (ReferenceError "key")
        {| elements := elements d; classList := remove "asw-dark-contrast" (classList d) |}.
Proof. reflexivity. Qed.

(** The id of the one resource the loop looks for when a global [key] is
    bound to [k]: it does not depend on the class being cleared. *)
Definition staleId (k : string) : string :=
  "asw-" ++ interpolate (match option_map id (lookup (replace "asw-" "" k) (FILTERS TEXT_SELECTORS)) with
                         | Some i => i
                         | None => None
                         end).

Lemma clearContrast_bound (k className : string) (d : Document) :
  clearContrast TEXT_SELECTORS (Some k) className d =
  Returned {| elements := removeById (staleId k) (elements d);
              classList := remove className (classList d) |}.
Proof. reflexivity. Qed.

(** With a global [key] bound, the loop clears every marker class and looks
    six times for the same resource. *)
Lemma clearing_loop_bound (k : string) (d : Document) :
  forEach (clearContrast TEXT_SELECTORS (Some k))
          (map (fun key => "asw-" ++ key) (map fst (FILTERS TEXT_SELECTORS))) d =
  Returned
    {| elements := Nat.iter 6 (removeById (staleId k)) (elements d);
       classList :=
         remove "asw-monochrome" (remove "asw-low-saturation" (remove "asw-high-saturation"
           (remove "asw-high-contrast" (remove "asw-light-contrast"
             (remove "asw-dark-contrast" (classList d)))))) |}.
Proof. reflexivity. Qed.

Lemma removeById_other (id other text : string) :
  other <> id -> removeById id [(other, text)] = [(other, text)].
Proof. intros H. simpl. apply String.eqb_neq in H. now rewrite H. Qed.

Lemma remove_twice_dark (l : list string) :
  remove "asw-dark-contrast" (remove "asw-dark-contrast" l) = remove "asw-dark-contrast" l.
Proof. apply DomFacts.remove_twice. Qed.

Lemma iter_fixed {A : Type} (f : A -> A) (x : A) (n : nat) : f x = x -> Nat.iter n f x = x.
Proof. intros H. induction n as [|n IH]; simpl; [reflexivity | now rewrite IH]. Qed.

Lemma monochromePage_elements :
  elements monochromePage = [("asw-monochrome", generateCSSFromConfig (Some monochromeConfig))].
Proof. reflexivity. Qed.

Lemma highContrastPage_elements :
  elements highContrastPage = [("asw-high-contrast", generateCSSFromConfig (Some highContrastConfig))].
Proof. reflexivity. Qed.

Lemma enableContrast_bound_clear (k : string) (d : Document) :
  enableContrast TEXT_SELECTORS (Some k) None d =
  Returned
    {| elements := Nat.iter 6 (removeById (staleId k)) (elements d);
       classList :=
         remove "asw-monochrome" (remove "asw-low-saturation" (remove "asw-high-saturation"
           (remove "asw-high-contrast" (remove "asw-light-contrast"
             (remove "asw-dark-contrast" (classList d)))))) |}.
Proof. reflexivity. Qed.

Lemma enableContrast_bound_low_saturation (k : string) (d : Document) :
  enableContrast TEXT_SELECTORS (Some k) (Some "low-saturation") d =
  Returned
    (let d1 :=
       {| elements := Nat.iter 6 (removeById (staleId k)) (elements d);
          classList :=
            remove "asw-monochrome" (remove "asw-low-saturation" (remove "asw-high-saturation"
              (remove "asw-high-contrast" (remove "asw-light-contrast"
                (remove "asw-dark-contrast" (classList d)))))) |} in
     let d2 :=
       injectToolCSS
         (withEnable (contrastConfig "low-saturation" [("filter", "saturate(50%)")] ["body"; "*"]) true)
         d1 in
     {| elements := elements d2; classList := add "asw-low-saturation" (classList d2) |}).
Proof. reflexivity. Qed.

(** C7 (the code departs from it).  An unknown or missing filter name does
    not clear the filters: without a global [key] the call throws a
    [ReferenceError] in the first pass of the clearing loop, whatever the
    name, with only the class [asw-dark-contrast] removed; an active
    monochrome filter keeps its resource and its marker class.  With a
    global [key] bound to any string the call returns, and some active
    filter still keeps its style resource. *)
Theorem enableContrast_unknown_name_throws :
  (forall (name : option string) (d : Document),
     enableContrast TEXT_SELECTORS None name d =
     Threw (ReferenceError "key")
           {| elements := elements d; classList := remove "asw-dark-contrast" (classList d) |})
  /\ lookup "sepia" (FILTERS TEXT_SELECTORS) = None
  /\ enableContrast TEXT_SELECTORS None (Some "sepia") monochromePage
     = Threw (ReferenceError "key") monochromePage
  /\ enableContrast TEXT_SELECTORS None None monochromePage
     = Threw (ReferenceError "key") monochromePage
  /\ getElementById "asw-monochrome" (elements monochromePage)
     = Some (generateCSSFromConfig (Some monochromeConfig))
  /\ contains "asw-monochrome" (classList monochromePage) = true
  /\ (forall k : string,
        exists (page : Document) (name : string),
          In name (map fst (FILTERS TEXT_SELECTORS))
          /\ wellFormed page
          /\ getElementById ("asw-" ++ name) (elements page) <> None
          /\ exists d' : Document,
               enableContrast TEXT_SELECTORS (Some k) None page = Returned d'
               /\ elements d' = elements page).
Proof.
  split; [intros; apply enableContrast_throws|].
  do 5 (split; [reflexivity|]).
  intros k. destruct (String.eqb_spec (staleId k) "asw-monochrome") as [E|N].
  - exists highContrastPage, "high-contrast".
    split; [simpl; tauto|]. split; [split; repeat constructor; simpl; tauto|].
    split; [discriminate|]. eexists. split; [apply enableContrast_bound_clear|].
    cbn [elements]. apply iter_fixed. rewrite highContrastPage_elements.
    apply removeById_other. rewrite E. discriminate.
  - exists monochromePage, "monochrome".
    split; [simpl; tauto|]. split; [split; repeat constructor; simpl; tauto|].
    split; [discriminate|]. eexists. split; [apply enableContrast_bound_clear|].
    cbn [elements]. apply iter_fixed. rewrite monochromePage_elements.
    apply removeById_other. congruence.
Qed.

(** C1 (the code departs from it).  Switching from one filter to another
    does not leave the second filter active.  Without a global [key] both
    calls throw before anything is injected: the document keeps its
    resources, and starting from an empty page neither the resource nor the
    marker class of [dark-contrast] is there after [monochrome] then
    [dark-contrast].  With a global [key] bound to any string, the calls
    return and, for some pair of filters, the resource of the first is left
    in the document beside the resource of the second. *)
Theorem enableContrast_switch_fails :
  (forall (a b : option string) (d : Document),
     let first := enableContrast TEXT_SELECTORS None a d in
     let second := enableContrast TEXT_SELECTORS None b (documentOf first) in
     first = Threw (ReferenceError "key")
               {| elements := elements d; classList := remove "asw-dark-contrast" (classList d) |}
     /\ second = Threw (ReferenceError "key")
                  {| elements := elements d; classList := remove "asw-dark-contrast" (classList d) |})
  /\ (let first := enableContrast TEXT_SELECTORS None (Some "monochrome") emptyPage in
      let second := enableContrast TEXT_SELECTORS None (Some "dark-contrast") (documentOf first) in
      documentOf second = emptyPage
      /\ getElementById "asw-dark-contrast" (elements (documentOf second)) = None
      /\ contains "asw-dark-contrast" (classList (documentOf second)) = false)
  /\ (forall k : string,
        exists (a : string) (d1 d2 : Document),
          In a (map fst (FILTERS TEXT_SELECTORS)) /\ a <> "low-saturation"
          /\ enableContrast TEXT_SELECTORS (Some k) (Some a) emptyPage = Returned d1
          /\ enableContrast TEXT_SELECTORS (Some k) (Some "low-saturation") d1 = Returned d2
          /\ getElementById ("asw-" ++ a) (elements d2) <> None
          /\ getElementById "asw-low-saturation" (elements d2) <> None).
Proof.
  split.
  { intros a b d first second. subst first second.
    rewrite !enableContrast_throws. cbn [documentOf elements classList].
    now rewrite remove_twice_dark. }
  split; [repeat split|].
  intros k. destruct (String.eqb_spec (staleId k) "asw-monochrome") as [E|N].
  - exists "high-contrast", highContrastPage. eexists.
    split; [simpl; tauto|]. split; [discriminate|].
    split; [reflexivity|]. split; [apply enableContrast_bound_low_saturation|].
    cbv zeta. unfold injectToolCSS at 1 2. cbn [elements classList].
    rewrite highContrastPage_elements.
    rewrite iter_fixed by (apply removeById_other; rewrite E; discriminate).
    split; discriminate.
  - exists "monochrome", monochromePage. eexists.
    split; [simpl; tauto|]. split; [discriminate|].
    split; [reflexivity|]. split; [apply enableContrast_bound_low_saturation|].
    cbv zeta. unfold injectToolCSS at 1 2. cbn [elements classList].
    rewrite monochromePage_elements.
    rewrite iter_fixed by (apply removeById_other; congruence).
    split; discriminate.
Qed.

End Filters.

End ContrastFacts.

(** ** Numbers: comparisons, the clamp, products *)

Module JsNumberFacts.
Import JsNumber.
Local Open Scope float_scope.

(** The binary64 values 8 and 72. *)
Definition sf8 : spec_float := S754_finite false 4503599627370496 (-49).
Definition sf72 : spec_float := S754_finite false 5066549580791808 (-46).

Lemma Prim2SF_8 : Prim2SF 8 = sf8. Proof. vm_compute. reflexivity. Qed.
Lemma Prim2SF_72 : Prim2SF 72 = sf72. Proof. vm_compute. reflexivity. Qed.

Lemma SFcompare_refl (s : spec_float) : s <> S754_nan -> SFcompare s s = Some Eq.
Proof.
  destruct s as [sg|sg| |sg m e]; simpl; intros H; try congruence.
  - now destruct sg.
  - destruct sg; rewrite Z.compare_refl, Pos.compare_cont_refl; reflexivity.
Qed.

Lemma is_nan_Prim2SF (x : float) :
  is_nan x = match Prim2SF x with S754_nan => true | _ => false end.
Proof.
  unfold is_nan. rewrite eqb_spec. unfold SFeqb.
  destruct (Prim2SF x) eqn:E; try reflexivity;
    rewrite SFcompare_refl by discriminate; reflexivity.
Qed.

Lemma nan_unique (x : float) : Prim2SF x = S754_nan -> x = nan.
Proof. intros H. rewrite <- (SF2Prim_Prim2SF x), H. reflexivity. Qed.

Lemma finite_ltb (m e m' e' : _) :
  SFltb (S754_finite false m e) (S754_finite false m' e') = true
  <-> (e < e')%Z \/ (e = e' /\ (Zpos m < Zpos m')%Z).
Proof.
  unfold SFltb, SFcompare. change (Pos.compare_cont Eq m m') with (Z.compare (Zpos m) (Zpos m')).
  destruct (Z.compare_spec e e') as [E|E|E].
  - destruct (Z.compare_spec (Zpos m) (Zpos m')) as [M|M|M]; split; intros H;
      try discriminate; try reflexivity; lia.
  - split; [intros _; lia | reflexivity].
  - split; [discriminate | lia].
Qed.

Lemma finite_ltb_false (m e m' e' : _) :
  SFltb (S754_finite false m e) (S754_finite false m' e') = false
  <-> ~ ((e < e')%Z \/ (e = e' /\ (Zpos m < Zpos m')%Z)).
Proof.
  rewrite <- finite_ltb. destruct (SFltb _ _); split; congruence.
Qed.

Lemma thresholds (s : spec_float) :
  s = S754_nan
  \/ (SFltb s sf8 = true /\ SFltb sf8 s = false /\ SFltb s sf72 = true /\ SFltb sf72 s = false)
  \/ s = sf8
  \/ (SFltb s sf8 = false /\ SFltb sf8 s = true /\ SFltb s sf72 = true /\ SFltb sf72 s = false)
  \/ s = sf72
  \/ (SFltb s sf8 = false /\ SFltb sf8 s = true /\ SFltb s sf72 = false /\ SFltb sf72 s = true).
Proof.
  destruct s as [sg|sg| |sg m e].
  - right; left. destruct sg; repeat split.
  - destruct sg; [right; left | do 5 right]; repeat split.
  - now left.
  - destruct sg; [right; left; repeat split|].
    unfold sf8, sf72.
    destruct (SFltb (S754_finite false m e) (S754_finite false 4503599627370496 (-49))) eqn:A;
    destruct (SFltb (S754_finite false 4503599627370496 (-49)) (S754_finite false m e)) eqn:B;
    destruct (SFltb (S754_finite false m e) (S754_finite false 5066549580791808 (-46))) eqn:C;
    destruct (SFltb (S754_finite false 5066549580791808 (-46)) (S754_finite false m e)) eqn:D;
    first [apply finite_ltb in A | apply finite_ltb_false in A];
    first [apply finite_ltb in B | apply finite_ltb_false in B];
    first [apply finite_ltb in C | apply finite_ltb_false in C];
    first [apply finite_ltb in D | apply finite_ltb_false in D].
    all: try (exfalso; lia).
    all: try solve [ right; left; repeat split
                   | do 3 right; left; repeat split
                   | do 5 right; repeat split ].
    + do 4 right; left.
      assert (e = (-46)%Z /\ Zpos m = 5066549580791808%Z) as [-> M] by lia.
      now injection M as ->.
    + right; right; left.
      assert (e = (-49)%Z /\ Zpos m = 4503599627370496%Z) as [-> M] by lia.
      now injection M as ->.
Qed.

Lemma Math_min_72 (x : float) :
  Math_min [72; x] = if is_nan x then nan else if x <? 72 then x else 72.
Proof. reflexivity. Qed.

Lemma Math_max_8 (y : float) :
  Math_max [8; y] = if is_nan y then nan else if 8 <? y then y else 8.
Proof. reflexivity. Qed.

Lemma ltb_8 (x : float) : (x <? 8) = SFltb (Prim2SF x) sf8.
Proof. now rewrite ltb_spec, Prim2SF_8. Qed.
Lemma gtb_8 (x : float) : (8 <? x) = SFltb sf8 (Prim2SF x).
Proof. now rewrite ltb_spec, Prim2SF_8. Qed.
Lemma ltb_72 (x : float) : (x <? 72) = SFltb (Prim2SF x) sf72.
Proof. now rewrite ltb_spec, Prim2SF_72. Qed.
Lemma gtb_72 (x : float) : (72 <? x) = SFltb sf72 (Prim2SF x).
Proof. now rewrite ltb_spec, Prim2SF_72. Qed.

Lemma clamp_bounds (x : float) :
  Math_max [8; Math_min [72; x]] = clamp x 8 72.
Proof.
  rewrite Math_min_72, Math_max_8. unfold clamp.
  destruct (thresholds (Prim2SF x)) as [H|[H|[H|[H|[H|H]]]]].
  - rewrite (nan_unique x H). reflexivity.
  - destruct H as (A & B & C & D).
    rewrite (is_nan_Prim2SF x), ltb_8, gtb_72, ltb_72, A, C.
    destruct (Prim2SF x) eqn:E; try discriminate;
      rewrite (is_nan_Prim2SF x), E, gtb_8, E, B; reflexivity.
  - rewrite <- Prim2SF_8 in H. apply Prim2SF_inj in H. subst x. reflexivity.
  - destruct H as (A & B & C & D).
    rewrite (is_nan_Prim2SF x), ltb_8, gtb_72, ltb_72, A, C, D.
    destruct (Prim2SF x) eqn:E; try discriminate;
      rewrite (is_nan_Prim2SF x), E, gtb_8, E, B; reflexivity.
  - rewrite <- Prim2SF_72 in H. apply Prim2SF_inj in H. subst x. reflexivity.
  - destruct H as (A & B & C & D).
    rewrite (is_nan_Prim2SF x), ltb_8, gtb_72, ltb_72, A, C, D.
    destruct (Prim2SF x) eqn:E; try discriminate; reflexivity.
Qed.

Section Rounding.
Local Open Scope Z_scope.

Lemma shr_1_nonneg (mrs : shr_record) : 0 <= shr_m mrs -> 0 <= shr_m (shr_1 mrs).
Proof.
  destruct mrs as [m r s]. simpl. intros H.
  destruct m as [|p|p]; [simpl; lia| |lia].
  destruct p; simpl; lia.
Qed.

Lemma iter_shr_1_nonneg (p : positive) (mrs : shr_record) :
  0 <= shr_m mrs -> 0 <= shr_m (iter_pos shr_1 p mrs).
Proof.
  revert mrs. induction p as [p IH|p IH|]; intros mrs H; simpl.
  - apply IH, IH, shr_1_nonneg, H.
  - apply IH, IH, H.
  - apply shr_1_nonneg, H.
Qed.

Lemma shr_fexp_nonneg (prec emax m e : Z) (l : location) :
  0 <= m -> 0 <= shr_m (fst (shr_fexp prec emax m e l)).
Proof.
  intros H. unfold shr_fexp, shr.
  assert (H0 : 0 <= shr_m (shr_record_of_loc m l)).
  { destruct l as [|[]]; exact H. }
  destruct (fexp prec emax (Zdigits2 m + e) - e); simpl; auto.
  now apply iter_shr_1_nonneg.
Qed.

Lemma round_nearest_even_nonneg (m : Z) (l : location) :
  0 <= m -> 0 <= round_nearest_even m l.
Proof.
  intros H. destruct l as [|[]]; simpl; try lia. destruct (Z.even m); lia.
Qed.

(** A rounded product keeps the sign it is given and is no NaN. *)
Lemma binary_round_aux_sign (prec emax : Z) (sx : bool) (mx ex : Z) (lx : location) :
  0 <= mx ->
  match binary_round_aux prec emax sx mx ex lx with
  | S754_zero s | S754_infinity s | S754_finite s _ _ => s = sx
  | S754_nan => False
  end.
Proof.
  intros H. unfold binary_round_aux.
  pose proof (shr_fexp_nonneg prec emax mx ex lx H) as H1.
  destruct (shr_fexp prec emax mx ex lx) as [mrs' e']. simpl in H1.
  pose proof (shr_fexp_nonneg prec emax _ e' loc_Exact
                (round_nearest_even_nonneg _ (loc_of_shr_record mrs') H1)) as H2.
  destruct (shr_fexp prec emax (round_nearest_even (shr_m mrs') (loc_of_shr_record mrs')) e' loc_Exact)
    as [mrs'' e'']. simpl in H2.
  destruct (shr_m mrs''); [reflexivity| |lia].
  destruct (e'' <=? emax - prec); reflexivity.
Qed.

Definition sf1 : spec_float := S754_finite false 4503599627370496 (-52).

Lemma shift52 (m : positive) :
  (4503599627370496 * m)%positive = Pos.iter xO m 52%positive.
Proof. reflexivity. Qed.

Lemma digits_shift52 (m : positive) :
  Zpos (digits2_pos (4503599627370496 * m)) = Zpos (digits2_pos m) + 52.
Proof.
  rewrite shift52. cbn [Pos.iter digits2_pos]. rewrite !Pos2Z.inj_succ. lia.
Qed.

Lemma shr_shift52 (m : positive) :
  iter_pos shr_1 52 (Build_shr_record (Zpos (4503599627370496 * m)) false false)
  = Build_shr_record (Zpos m) false false.
Proof. reflexivity. Qed.

Lemma shr_fexp_canonical (m : positive) (e : Z) :
  canonical_mantissa prec emax m e = true ->
  shr_fexp prec emax (Zpos m) e loc_Exact = (Build_shr_record (Zpos m) false false, e).
Proof.
  unfold canonical_mantissa, shr_fexp. intros H. apply Z.eqb_eq in H.
  cbn [Zdigits2]. rewrite H, Z.sub_diag. reflexivity.
Qed.

Lemma shr_fexp_shift52 (m : positive) (e : Z) :
  canonical_mantissa prec emax m e = true ->
  shr_fexp prec emax (Zpos (4503599627370496 * m)) (e + -52) loc_Exact
  = (Build_shr_record (Zpos m) false false, e).
Proof.
  unfold canonical_mantissa, shr_fexp. intros H. apply Z.eqb_eq in H.
  cbn [Zdigits2]. rewrite digits_shift52.
  replace (Zpos (digits2_pos m) + 52 + (e + -52)) with (Zpos (digits2_pos m) + e) by lia.
  rewrite H. replace (e - (e + -52)) with 52 by lia.
  unfold shr, shr_record_of_loc. rewrite shr_shift52. f_equal. lia.
Qed.

(** Multiplying by one is exact. *)
Lemma SF64mul_one (s : spec_float) : valid_binary s = true -> SF64mul s sf1 = s.
Proof.
  destruct s as [sg|sg| |sg m e]; intros H; simpl.
  - now rewrite xorb_false_r.
  - now rewrite xorb_false_r.
  - reflexivity.
  - simpl in H. unfold bounded in H. apply andb_true_iff in H as [Hc Hb].
    unfold SF64mul, SFmul, sf1. rewrite xorb_false_r, Pos.mul_comm.
    unfold binary_round_aux. rewrite (shr_fexp_shift52 m e Hc).
    cbn [shr_m loc_of_shr_record round_nearest_even].
    rewrite (shr_fexp_canonical m e Hc). cbn [shr_m]. now rewrite Hb.
Qed.


End Rounding.

Lemma SFcompare_antisym (a b : spec_float) :
  SFcompare b a = option_map CompOpp (SFcompare a b).
Proof.
  destruct a as [sa|sa| |sa ma ea], b as [sb|sb| |sb mb eb]; simpl;
    try destruct sa; try destruct sb; try reflexivity.
  - rewrite (Z.compare_antisym ea eb).
    destruct (ea ?= eb)%Z; simpl; try reflexivity.
    now rewrite (Pos.compare_cont_antisym ma mb Eq).
  - rewrite (Z.compare_antisym ea eb).
    destruct (ea ?= eb)%Z; simpl; try reflexivity.
    now rewrite (Pos.compare_cont_antisym ma mb Eq).
Qed.

Lemma leb_not_gtb (a b : float) : (a <=? b) = true -> (b <? a) = false.
Proof.
  rewrite leb_spec, ltb_spec. unfold SFleb, SFltb.
  rewrite (SFcompare_antisym (Prim2SF a) (Prim2SF b)).
  destruct (SFcompare (Prim2SF a) (Prim2SF b)) as [[]|]; simpl; congruence.
Qed.

(** Inside the bounds the clamp is the identity. *)
Lemma clamp_inside (x : float) : (8 <=? x) = true -> (x <=? 72) = true -> clamp x 8 72 = x.
Proof.
  intros H1 H2. unfold clamp. now rewrite (leb_not_gtb _ _ H1), (leb_not_gtb _ _ H2).
Qed.

Lemma Prim2SF_infinity : Prim2SF infinity = S754_infinity false.
Proof. vm_compute. reflexivity. Qed.

Lemma Prim2SF_zero : Prim2SF 0 = S754_zero false.
Proof. vm_compute. reflexivity. Qed.

Lemma is_infinity_Prim2SF (x : float) :
  is_infinity x = match Prim2SF x with S754_infinity _ => true | _ => false end.
Proof.
  unfold is_infinity. rewrite eqb_spec, abs_spec, Prim2SF_infinity.
  destruct (Prim2SF x) as [s|s| |s m e]; reflexivity.
Qed.

Lemma is_finite_Prim2SF (x : float) :
  is_finite x = match Prim2SF x with S754_zero _ | S754_finite _ _ _ => true | _ => false end.
Proof.
  unfold is_finite. rewrite is_nan_Prim2SF, is_infinity_Prim2SF.
  destruct (Prim2SF x); reflexivity.
Qed.

Lemma nonneg_finite (x : float) :
  (0 <=? x) = true -> is_finite x = true ->
  match Prim2SF x with
  | S754_zero _ | S754_finite false _ _ => True
  | _ => False
  end.
Proof.
  rewrite leb_spec, Prim2SF_zero, is_finite_Prim2SF.
  destruct (Prim2SF x) as [s|s| |[] m e]; simpl; try discriminate; auto.
Qed.

Lemma nonpos_finite (x : float) :
  (x <=? 0) = true -> is_finite x = true ->
  match Prim2SF x with
  | S754_zero _ | S754_finite true _ _ => True
  | _ => False
  end.
Proof.
  rewrite leb_spec, Prim2SF_zero, is_finite_Prim2SF.
  destruct (Prim2SF x) as [s|s| |[] m e]; simpl; try discriminate; auto.
Qed.

(** The product of a size that is not negative and a multiplier that is not
    positive is below 8. *)
Lemma nonpositive_product (base m : float) :
  (0 <=? base) = true -> is_finite base = true ->
  (m <=? 0) = true -> is_finite m = true ->
  (base * m <? 8) = true.
Proof.
  intros B1 B2 M1 M2.
  pose proof (nonneg_finite base B1 B2) as HB.
  pose proof (nonpos_finite m M1 M2) as HM.
  rewrite ltb_8, mul_spec. unfold SF64mul.
  destruct (Prim2SF base) as [sb|sb| |[] mb eb]; try contradiction;
  destruct (Prim2SF m) as [sm|sm| |[] mm em]; try contradiction;
    try (simpl; try destruct sb; try destruct sm; reflexivity).
  unfold SFmul. cbn [xorb].
  pose proof (binary_round_aux_sign prec emax true (Zpos (mb * mm)) (eb + em) loc_Exact
                ltac:(lia)) as H.
  destruct (binary_round_aux prec emax true (Z.pos (mb * mm)) (eb + em) loc_Exact)
    as [s|s| |s m' e']; try contradiction; subst s; reflexivity.
Qed.

Lemma mul_one (x : float) : x * 1 = x.
Proof.
  apply Prim2SF_inj. rewrite mul_spec.
  change (Prim2SF 1) with sf1. apply SF64mul_one, Prim2SF_valid.
Qed.

End JsNumberFacts.

(** ** The font-size tool *)

Module FontSizeFacts.
Import JsString JsNumber FontSize JsNumberFacts.
Local Open Scope float_scope.

Lemma newFontSize_clamp (base multiply : float) :
  newFontSize base multiply = clamp (base * multiply) 8 72.
Proof. apply clamp_bounds. Qed.

Lemma newFontSize_nonpositive (base m : float) :
  (0 <=? base) = true -> is_finite base = true ->
  (m <=? 0) = true -> is_finite m = true ->
  newFontSize base m = 8.
Proof.
  intros B1 B2 M1 M2. rewrite newFontSize_clamp. unfold clamp.
  now rewrite nonpositive_product.
Qed.

(** The clamped value is a font size unless it is NaN. *)
Lemma isLength_clamp (x : float) : isLength (clamp x 8 72) = negb (is_nan x).
Proof.
  unfold clamp, isLength.
  destruct (thresholds (Prim2SF x)) as [H|[H|[H|[H|[H|H]]]]].
  - rewrite (nan_unique x H). reflexivity.
  - destruct H as (A & B & C & D). rewrite ltb_8, A, is_nan_Prim2SF.
    destruct (Prim2SF x); try discriminate; reflexivity.
  - rewrite <- Prim2SF_8 in H. apply Prim2SF_inj in H. subst x. reflexivity.
  - destruct H as (A & B & C & D).
    rewrite ltb_8, gtb_72, A, D, is_finite_Prim2SF, leb_spec, Prim2SF_zero, is_nan_Prim2SF.
    destruct (Prim2SF x) as [s|s| |s m e]; try discriminate.
    + destruct s; discriminate.
    + destruct s; [discriminate | reflexivity].
  - rewrite <- Prim2SF_72 in H. apply Prim2SF_inj in H. subst x. reflexivity.
  - destruct H as (A & B & C & D). rewrite ltb_8, gtb_72, A, D, is_nan_Prim2SF.
    destruct (Prim2SF x); try discriminate; reflexivity.
Qed.

Lemma falsy_Prim2SF (x : float) :
  falsy x = match Prim2SF x with S754_nan | S754_zero _ => true | _ => false end.
Proof.
  unfold falsy, is_zero. rewrite is_nan_Prim2SF, eqb_spec.
  change (Prim2SF zero) with (Prim2SF 0). rewrite Prim2SF_zero.
  destruct (Prim2SF x) as [s|s| |s m e]; try reflexivity; destruct s; reflexivity.
Qed.

(** A truthy number survives the trip through its decimal text. *)
Lemma roundTrip_truthy (x : float) : falsy x = false -> roundTrip x = x.
Proof.
  unfold falsy, roundTrip. intros H. apply orb_false_iff in H as [_ H]. now rewrite H.
Qed.

Section Tool.
Variable ICON_SELECTOR : list string.

(** What the callback leaves in the cache. *)
Definition cacheOf (el : HTMLElement) : HTMLElement :=
  if falsy (match aswOrgFontSize el with Some n => n | None => nan end)
  then setOrgFontSize (computedFontSize el) el
  else el.

Lemma visit_skipped (multiply : float) (el : HTMLElement) :
  skipped ICON_SELECTOR el = true -> visit ICON_SELECTOR multiply el = el.
Proof.
  unfold skipped, visit. intros H.
  destruct (hasIconClass ICON_SELECTOR el); [reflexivity|].
  destruct (insideWidget el); [reflexivity|].
  destruct (invisibleOrEmpty el); [reflexivity | discriminate].
Qed.

Lemma visit_adjusted (multiply : float) (el : HTMLElement) :
  skipped ICON_SELECTOR el = false ->
  visit ICON_SELECTOR multiply el = setFontSize (newFontSize (orgFontSize el) multiply) (cacheOf el).
Proof.
  unfold skipped, visit, orgFontSize, cacheOf. intros H.
  apply orb_false_iff in H as [H H3]. apply orb_false_iff in H as [H1 H2].
  rewrite H1, H2, H3.
  destruct (falsy (match aswOrgFontSize el with Some n => n | None => nan end)); reflexivity.
Qed.

Lemma adjustFontSize_nth (multiply : option float) (p : Page) (i : nat) (el : HTMLElement) :
  nth_error (body p) i = Some el ->
  nth_error (body (adjustFontSize ICON_SELECTOR multiply p)) i =
  Some (if matchesFontSizeSelector el
        then visit ICON_SELECTOR (match multiply with Some m => m | None => 1 end) el
        else el).
Proof.
  intros H. unfold adjustFontSize. cbn [body].
  rewrite nth_error_map, H. reflexivity.
Qed.

Lemma fontSizeStyle_setFontSize (n : float) (el : HTMLElement) :
  fontSizeStyle (setFontSize n el) = if isLength n then Some n else fontSizeStyle el.
Proof. unfold setFontSize. now destruct (isLength n). Qed.

Lemma fontSizeStyle_cacheOf (el : HTMLElement) : fontSizeStyle (cacheOf el) = fontSizeStyle el.
Proof. unfold cacheOf. now destruct (falsy _). Qed.

(** The size an adjusted element ends with. *)
Lemma fontSizeStyle_visit (multiply : float) (el : HTMLElement) :
  skipped ICON_SELECTOR el = false ->
  fontSizeStyle (visit ICON_SELECTOR multiply el) =
  if is_nan (orgFontSize el * multiply) then fontSizeStyle el
  else Some (clamp (orgFontSize el * multiply) 8 72).
Proof.
  intros H. rewrite (visit_adjusted multiply el H), fontSizeStyle_setFontSize.
  rewrite newFontSize_clamp, isLength_clamp, fontSizeStyle_cacheOf.
  now destruct (is_nan _).
Qed.

Lemma aswOrgFontSize_visit (multiply : float) (el : HTMLElement) :
  skipped ICON_SELECTOR el = false ->
  aswOrgFontSize (visit ICON_SELECTOR multiply el) =
  if falsy (match aswOrgFontSize el with Some n => n | None => nan end)
  then Some (roundTrip (computedFontSize el))
  else aswOrgFontSize el.
Proof.
  intros H. rewrite (visit_adjusted multiply el H). unfold setFontSize, cacheOf.
  destruct (isLength _), (falsy _); reflexivity.
Qed.

(** The callback changes neither what selects an element nor what makes it
    skip one. *)
Lemma visit_frame (multiply : float) (el : HTMLElement) :
  matchesFontSizeSelector (visit ICON_SELECTOR multiply el) = matchesFontSizeSelector el
  /\ skipped ICON_SELECTOR (visit ICON_SELECTOR multiply el) = skipped ICON_SELECTOR el.
Proof.
  destruct (skipped ICON_SELECTOR el) eqn:H.
  - rewrite (visit_skipped multiply el H). now split.
  - rewrite (visit_adjusted multiply el H). unfold setFontSize, cacheOf.
    destruct (isLength _), (falsy _); split; (reflexivity || exact H).
Qed.

Lemma adjusted_split (el : HTMLElement) :
  adjusted ICON_SELECTOR el = true ->
  matchesFontSizeSelector el = true /\ skipped ICON_SELECTOR el = false.
Proof.
  unfold adjusted. intros H. apply andb_true_iff in H as [H1 H2].
  split; [exact H1 | now apply negb_true_iff].
Qed.

Lemma adjustFontSize_nth_adjusted (multiply : float) (p : Page) (i : nat) (el : HTMLElement) :
  nth_error (body p) i = Some el -> adjusted ICON_SELECTOR el = true ->
  nth_error (body (adjustFontSize ICON_SELECTOR (Some multiply) p)) i =
  Some (visit ICON_SELECTOR multiply el).
Proof.
  intros H Ha. apply adjusted_split in Ha as [Hm _].
  rewrite (adjustFontSize_nth (Some multiply) p i el H), Hm. reflexivity.
Qed.

Lemma visit_adjusted_again (multiply : float) (el : HTMLElement) :
  adjusted ICON_SELECTOR el = true -> adjusted ICON_SELECTOR (visit ICON_SELECTOR multiply el) = true.
Proof.
  unfold adjusted. destruct (visit_frame multiply el) as [-> ->]. auto.
Qed.


(** C6.  For an adjusted element with base size [base] (the cached size, or
    the computed size when nothing truthy is cached) and any multiplier
    [m], the value handed to the style is [clamp(base * m, 8, 72)], and it
    becomes the element's font size; when [base * m] is NaN so is the
    clamp, and the text [NaNpx], which is no length, leaves the declaration
    as it was. *)
Theorem adjustFontSize_clamp (p : Page) (i : nat) (el : HTMLElement) (m : float) :
  nth_error (body p) i = Some el ->
  adjusted ICON_SELECTOR el = true ->
  newFontSize (orgFontSize el) m = clamp (orgFontSize el * m) 8 72
  /\ exists el' : HTMLElement,
       nth_error (body (adjustFontSize ICON_SELECTOR (Some m) p)) i = Some el'
       /\ fontSizeStyle el' =
          if is_nan (orgFontSize el * m) then fontSizeStyle el
          else Some (clamp (orgFontSize el * m) 8 72).
Proof.
  intros Hnth Ha. split; [apply newFontSize_clamp|].
  exists (visit ICON_SELECTOR m el).
  split; [now apply adjustFontSize_nth_adjusted|].
  apply fontSizeStyle_visit. now apply adjusted_split.
Qed.

(** C5, amended.  [adjustFontSize(1)] sets an adjusted element to
    [clamp(base, 8, 72)], where [base] is its base size: the original size
    itself when it lies between 8 and 72. *)
Theorem adjustFontSize_one (p : Page) (i : nat) (el : HTMLElement) :
  nth_error (body p) i = Some el ->
  adjusted ICON_SELECTOR el = true ->
  exists el' : HTMLElement,
    nth_error (body (adjustFontSize ICON_SELECTOR (Some 1) p)) i = Some el'
    /\ fontSizeStyle el' =
       (if is_nan (orgFontSize el) then fontSizeStyle el
        else Some (clamp (orgFontSize el) 8 72))
    /\ ((8 <=? orgFontSize el) = true -> (orgFontSize el <=? 72) = true ->
        fontSizeStyle el' = Some (orgFontSize el)).
Proof.
  intros Hnth Ha. exists (visit ICON_SELECTOR 1 el).
  split; [now apply adjustFontSize_nth_adjusted|].
  destruct (adjusted_split el Ha) as [_ Hs].
  pose proof (fontSizeStyle_visit 1 el Hs) as H. rewrite mul_one in H.
  split; [exact H|]. intros H8 H72. rewrite H, (clamp_inside _ H8 H72).
  rewrite is_nan_Prim2SF. rewrite leb_spec in H8.
  destruct (Prim2SF (orgFontSize el)); try reflexivity. discriminate.
Qed.

(** C10.  A multiplier that is zero or negative sets every adjusted element
    whose base size is a finite size, not negative, to 8; the multiplier is
    stored on the root all the same; and a call without argument is a call
    with 1. *)
Theorem adjustFontSize_nonpositive (p : Page) (i : nat) (el : HTMLElement) (m : float) :
  nth_error (body p) i = Some el ->
  adjusted ICON_SELECTOR el = true ->
  (0 <=? orgFontSize el) = true -> is_finite (orgFontSize el) = true ->
  (m <=? 0) = true -> is_finite m = true ->
  (exists el' : HTMLElement,
     nth_error (body (adjustFontSize ICON_SELECTOR (Some m) p)) i = Some el'
     /\ fontSizeStyle el' = Some 8)
  /\ aswFontMultiplier (adjustFontSize ICON_SELECTOR (Some m) p) = Some (roundTrip m)
  /\ adjustFontSize ICON_SELECTOR None p = adjustFontSize ICON_SELECTOR (Some 1) p.
Proof.
  intros Hnth Ha B1 B2 M1 M2. split; [|split; reflexivity].
  exists (visit ICON_SELECTOR m el).
  split; [now apply adjustFontSize_nth_adjusted|].
  destruct (adjusted_split el Ha) as [_ Hs].
  rewrite (visit_adjusted m el Hs), fontSizeStyle_setFontSize.
  rewrite (newFontSize_nonpositive _ _ B1 B2 M1 M2). reflexivity.
Qed.

End Tool.

Local Open Scope string_scope.

(** A paragraph of visible text at 16px, never visited. *)
Definition paragraph16 : HTMLElement :=
  {| tagName := "p"; classes := []; ancestors := [["content"]];
     offsetParent := true; textContent := Some "Hello";
     aswOrgFontSize := None; fontSizeStyle := None; cascadedFontSize := 16 |}.

(** A heading at 100px, never visited. *)
Definition bigHeading : HTMLElement :=
  {| tagName := "h1"; classes := []; ancestors := [["hero"]];
     offsetParent := true; textContent := Some "Welcome";
     aswOrgFontSize := None; fontSizeStyle := None; cascadedFontSize := 100 |}.


Definition pageOf (els : list HTMLElement) : Page :=
  {| body := els; aswFontMultiplier := None |}.


Lemma adjustFontSize_clamp_witness :
  (exists el' : HTMLElement,
     nth_error (body (adjustFontSize [] (Some 10%float) (pageOf [paragraph16]))) 0 = Some el'
     /\ fontSizeStyle el' = Some 72%float)
  /\ (exists el' : HTMLElement,
        nth_error (body (adjustFontSize [] (Some 0x1.999999999999ap-4%float) (pageOf [paragraph16]))) 0
        = Some el'
        /\ fontSizeStyle el' = Some 8%float).
Proof.
  split.
  - destruct (adjustFontSize_clamp [] (pageOf [paragraph16]) 0 paragraph16 10%float eq_refl eq_refl)
      as [_ [el' [H1 H2]]].
    exists el'. split; [exact H1 | exact H2].
  - destruct (adjustFontSize_clamp [] (pageOf [paragraph16]) 0 paragraph16
                0x1.999999999999ap-4%float eq_refl eq_refl) as [_ [el' [H1 H2]]].
    exists el'. split; [exact H1 | exact H2].
Defined.

Lemma adjustFontSize_one_witness :
  exists el' : HTMLElement,
    nth_error (body (adjustFontSize [] (Some 1%float) (pageOf [paragraph16]))) 0 = Some el'
    /\ fontSizeStyle el' = Some 16%float.
Proof.
  destruct (adjustFontSize_one [] (pageOf [paragraph16]) 0 paragraph16 eq_refl eq_refl)
    as [el' [H1 [_ H3]]].
  exists el'. split; [exact H1 | exact (H3 eq_refl eq_refl)].
Defined.

(** C5, as it is worded, fails: a heading whose original size is 100px is
    set to 72px by [adjustFontSize(1)], not back to 100px. *)
Lemma adjustFontSize_one_clamps :
  orgFontSize bigHeading = 100%float
  /\ (forall ICON_SELECTOR : list string, adjusted ICON_SELECTOR bigHeading = true)
  /\ (forall ICON_SELECTOR : list string,
        body (adjustFontSize ICON_SELECTOR (Some 1%float) (pageOf [bigHeading])) =
        [ {| tagName := "h1"; classes := []; ancestors := [["hero"]];
             offsetParent := true; textContent := Some "Welcome";
             aswOrgFontSize := Some 100%float; fontSizeStyle := Some 72%float;
             cascadedFontSize := 100%float |} ]).
Proof. repeat split. Qed.

Lemma adjustFontSize_nonpositive_witness :
  (exists el' : HTMLElement,
     nth_error (body (adjustFontSize [] (Some (-2)%float) (pageOf [paragraph16]))) 0 = Some el'
     /\ fontSizeStyle el' = Some 8%float)
  /\ aswFontMultiplier (adjustFontSize [] (Some (-2)%float) (pageOf [paragraph16]))
     = Some (-2)%float.
Proof.
  destruct (adjustFontSize_nonpositive [] (pageOf [paragraph16]) 0 paragraph16 (-2)%float
              eq_refl eq_refl eq_refl eq_refl eq_refl eq_refl) as [H1 [H2 _]].
  split; [exact H1 | exact H2].
Defined.

End FontSizeFacts.

(** ** Edge cases of the CSS compiler *)

Module CompilerEdgeFacts.
Import JsString CssGenerator JsStringFacts CssGeneratorFacts.
Local Open Scope string_scope.

Lemma generateCSS_empty (styles : option (list (string * string))) :
  styles = None \/ styles = Some [] -> generateCSS styles = "".
Proof. intros [->| ->]; reflexivity. Qed.

Lemma trim_space_prefixed (s : string) : trim (" " ++ s) = trim s.
Proof. reflexivity. Qed.

(** X2.  A config whose style object is missing or has no property compiles to
    its extra CSS, trimmed, whatever its selector and children; to the empty
    string when it has no extra CSS either; and so does a missing config. *)
Theorem generateCSSFromConfig_without_styles (config : IToolConfig) :
  styles config = None \/ styles config = Some [] ->
  generateCSSFromConfig (Some config)
  = trim (match css config with Some extra => extra | None => "" end)
  /\ (truthy (css config) = false -> generateCSSFromConfig (Some config) = "")
  /\ generateCSSFromConfig None = "".
Proof.
  intros H. unfold generateCSSFromConfig. rewrite (generateCSS_empty _ H). cbn [nonEmpty andb].
  destruct (css config) as [[|c extra]|]; repeat split; try reflexivity; discriminate.
Qed.

Definition extraOnly : IToolConfig :=
  {| id := Some "extra"; selector := Some "html.asw-extra"; childrenSelector := Some ["p"];
     styles := Some []; css := Some "  p { margin: 0 }  "; enable := None |}.

Lemma generateCSSFromConfig_without_styles_witness :
  generateCSSFromConfig (Some extraOnly) = "p { margin: 0 }".
Proof.
  destruct (generateCSSFromConfig_without_styles extraOnly (or_intror eq_refl)) as [H _].
  exact H.
Defined.

(** X3.  An empty [childrenSelector] array is truthy, so the default [[""]] does
    not replace it: with a selector, the styles then give no rule at all and
    only the extra CSS is left. *)
Theorem generateCSSFromConfig_no_children (config : IToolConfig) :
  truthy (selector config) = true -> childrenSelector config = Some [] ->
  generateCSSFromConfig (Some config)
  = trim (match css config with Some extra => extra | None => "" end).
Proof.
  intros Hsel Hch. unfold generateCSSFromConfig. rewrite Hsel, Hch.
  destruct (nonEmpty (generateCSS (styles config))); cbn [andb];
    destruct (css config) as [[|c extra]|]; reflexivity.
Qed.

Definition childless : IToolConfig :=
  {| id := Some "big-cursor"; selector := Some "html.asw-big-cursor"; childrenSelector := Some [];
     styles := Some [("cursor", "pointer")]; css := None; enable := None |}.

Lemma generateCSSFromConfig_no_children_witness :
  generateCSS (styles childless) = "cursor: pointer !important;"
  /\ generateCSSFromConfig (Some childless) = "".
Proof.
  split; [reflexivity|].
  exact (generateCSSFromConfig_no_children childless eq_refl eq_refl).
Defined.

End CompilerEdgeFacts.

(** ** Deactivating a tool *)

Module DeactivateFacts.
Import JsString CssGenerator Dom DomFacts.
Local Open Scope string_scope.

Lemma getElementById_None (id : string) (els : list (string * string)) :
  getElementById id els = None <-> ~ In id (map fst els).
Proof.
  induction els as [|[i t] rest IH]; simpl; [tauto|].
  destruct (i =? id) eqn:E.
  - apply String.eqb_eq in E. split; [discriminate | tauto].
  - apply String.eqb_neq in E. rewrite IH. tauto.
Qed.

Lemma contains_remove (token other : string) (l : list string) :
  contains other (remove token l) = if other =? token then false else contains other l.
Proof.
  destruct (String.eqb_spec other token) as [->|Hne].
  - destruct (contains token (remove token l)) eqn:E; [|reflexivity].
    apply contains_In in E. now apply remove_gone in E.
  - unfold contains, remove. induction l as [|x l IH]; simpl; [reflexivity|].
    destruct (String.eqb_spec x token) as [->|Hx]; simpl.
    + rewrite IH. apply String.eqb_neq in Hne. now rewrite Hne.
    + now rewrite IH.
Qed.

Lemma remove_absent (token : string) (l : list string) :
  contains token l = false -> remove token l = l.
Proof.
  unfold contains, remove. induction l as [|x l IH]; simpl; [reflexivity|].
  intros H. apply orb_false_iff in H as [H1 H2].
  rewrite String.eqb_sym, H1. simpl. now rewrite IH.
Qed.

(** X4.  [injectToolCSS] with [enable] false or left out, on a document whose
    ids are unique: afterwards no element carries the tool's id and the root
    does not carry its marker class; the other classes of the root are as
    before; and when the tool was not active to begin with (no such
    element, no such class) the document is left exactly as it was.
    Nothing is said of the elements with other ids: [remove()] takes the
    element with all it contains. *)
Theorem injectToolCSS_disable (config : IToolConfig) (d : Document) :
  wellFormed d ->
  enable config = Some false \/ enable config = None ->
  let d' := injectToolCSS config d in
  getElementById (toolIdOf config) (elements d') = None
  /\ contains (toolIdOf config) (classList d') = false
  /\ (forall other : string,
        other <> toolIdOf config ->
        contains other (classList d') = contains other (classList d))
  /\ (getElementById (toolIdOf config) (elements d) = None ->
      contains (toolIdOf config) (classList d) = false -> d' = d).
Proof.
  intros [He Hc] Hen d'.
  assert (E : d' = {| elements := removeById (toolIdOf config) (elements d);
                      classList := remove (toolIdOf config) (classList d) |}).
  { subst d'. unfold injectToolCSS, toggle. fold (toolIdOf config).
    destruct Hen as [-> | ->]; reflexivity. }
  rewrite E. cbn [elements classList]. split; [|split; [|split]].
  - apply getElementById_None, removeById_gone, He.
  - rewrite contains_remove. now rewrite String.eqb_refl.
  - intros other Hne. rewrite contains_remove.
    apply String.eqb_neq in Hne. now rewrite Hne.
  - intros H1 H2. apply getElementById_None in H1.
    rewrite (removeById_absent _ _ H1), (remove_absent _ _ H2). now destruct d.
Qed.

Definition twoTools : Document :=
  {| elements := [("asw-monochrome", "html.asw-monochrome * { filter: grayscale(100%) !important; }");
                  ("asw-readable-font", "html.asw-readable-font * { font-family: Arial !important; }")];
     classList := ["asw-monochrome"; "asw-readable-font"] |}.

Definition monochromeOff : IToolConfig :=
  {| id := Some "monochrome"; selector := None; childrenSelector := None;
     styles := None; css := None; enable := Some false |}.

Lemma twoTools_wellFormed : wellFormed twoTools.
Proof. split; repeat constructor; simpl; intuition discriminate. Defined.

Lemma injectToolCSS_disable_witness :
  getElementById "asw-monochrome" (elements (injectToolCSS monochromeOff twoTools)) = None
  /\ contains "asw-monochrome" (classList (injectToolCSS monochromeOff twoTools)) = false
  /\ contains "asw-readable-font" (classList (injectToolCSS monochromeOff twoTools)) = true.
Proof.
  destruct (injectToolCSS_disable monochromeOff twoTools twoTools_wellFormed (or_introl eq_refl))
    as [H1 [H2 [H3 _]]].
  split; [exact H1 | split; [exact H2|]].
  rewrite H3; [reflexivity | discriminate].
Defined.

End DeactivateFacts.

(** ** The readable-font tool *)

Module ReadableFontFacts.
Import JsString CssGenerator Dom DomFacts ReadableFont.
Local Open Scope string_scope.

(** X5.  [readableFont(enable)] leaves the document exactly as its call of
    [injectToolCSS] does: the class [asw-readable-font] it then adds or
    removes is the marker class [injectToolCSS] has just toggled.  Turned
    off, it removes the first element with the id [asw-readable-font] and
    the class, whatever the selector tables are; that is also what a call
    without argument does. *)
Theorem readableFont_is_injectToolCSS (ALL_ELEMENT_SELECTORS TEXT_SELECTORS : list string)
    (d : Document) :
  (forall enable : bool,
     readableFont ALL_ELEMENT_SELECTORS TEXT_SELECTORS (Some enable) d =
     injectToolCSS (withEnable (readableFontConfig ALL_ELEMENT_SELECTORS TEXT_SELECTORS) enable) d)
  /\ readableFont ALL_ELEMENT_SELECTORS TEXT_SELECTORS (Some false) d =
     {| elements := removeById "asw-readable-font" (elements d);
        classList := remove "asw-readable-font" (classList d) |}
  /\ readableFont ALL_ELEMENT_SELECTORS TEXT_SELECTORS None d =
     readableFont ALL_ELEMENT_SELECTORS TEXT_SELECTORS (Some false) d.
Proof.
  split; [|split].
  - intros [|]; unfold readableFont, injectToolCSS, toggle; cbn [enable withEnable id readableFontConfig
      elements classList append].
    + now rewrite add_twice.
    + now rewrite remove_twice.
  - unfold readableFont, injectToolCSS, toggle. cbn [enable withEnable id readableFontConfig
      elements classList append]. now rewrite remove_twice.
  - reflexivity.
Qed.

End ReadableFontFacts.

(** ** More on the font-size tool *)

Module FontSizeMoreFacts.
Import JsString JsNumber FontSize JsNumberFacts FontSizeFacts.
Local Open Scope float_scope.

Lemma SFltb_SFleb (a b : spec_float) : SFltb a b = true -> SFleb a b = true.
Proof. unfold SFltb, SFleb. destruct (SFcompare a b) as [[]|]; congruence. Qed.

(** A clamped number lies between the bounds. *)
Lemma clamp_range (x : float) :
  is_nan x = false -> (8 <=? clamp x 8 72) = true /\ (clamp x 8 72 <=? 72) = true.
Proof.
  intros Hn. unfold clamp.
  destruct (thresholds (Prim2SF x)) as [H|[H|[H|[H|[H|H]]]]].
  - rewrite is_nan_Prim2SF, H in Hn. discriminate.
  - destruct H as (A & _). rewrite ltb_8, A. split; reflexivity.
  - rewrite <- Prim2SF_8 in H. apply Prim2SF_inj in H. subst x. split; reflexivity.
  - destruct H as (A & B & C & D). rewrite ltb_8, gtb_72, A, D.
    rewrite !leb_spec, Prim2SF_8, Prim2SF_72. split; now apply SFltb_SFleb.
  - rewrite <- Prim2SF_72 in H. apply Prim2SF_inj in H. subst x. split; reflexivity.
  - destruct H as (A & B & C & D). rewrite ltb_8, gtb_72, A, D. split; reflexivity.
Qed.

(** Zero times a finite number is zero, hence below 8. *)
Lemma zero_product (m : float) : is_finite m = true -> (0 * m <? 8) = true.
Proof.
  rewrite is_finite_Prim2SF, ltb_8, mul_spec, Prim2SF_zero.
  destruct (Prim2SF m) as [s|s| |s mm e]; try discriminate; intros _; destruct s; reflexivity.
Qed.

Section Tool.
Variable ICON_SELECTOR : list string.

(** X6.  Whatever the multiplier, an adjusted element ends with the size it had
    or with a size between 8 and 72. *)
Theorem adjustFontSize_within_bounds (p : Page) (i : nat) (el : HTMLElement) (m : float) :
  nth_error (body p) i = Some el ->
  adjusted ICON_SELECTOR el = true ->
  exists el' : HTMLElement,
    nth_error (body (adjustFontSize ICON_SELECTOR (Some m) p)) i = Some el'
    /\ (fontSizeStyle el' = fontSizeStyle el
        \/ exists px : float,
             fontSizeStyle el' = Some px /\ (8 <=? px) = true /\ (px <=? 72) = true).
Proof.
  intros Hnth Ha.
  destruct (adjustFontSize_clamp ICON_SELECTOR p i el m Hnth Ha) as [_ [el' [H1 H2]]].
  exists el'. split; [exact H1|].
  destruct (is_nan (orgFontSize el * m)) eqn:Hn; [now left|].
  right. exists (clamp (orgFontSize el * m) 8 72). split; [exact H2|].
  now apply clamp_range.
Qed.

(** X8.  An element whose computed size is 0 never gets a truthy cache entry
    from its own size: the first call sets it to 8 and caches 0; the next
    call finds the cache falsy, reads the 8 the tool applied itself, caches
    that, and scales it. *)
Theorem adjustFontSize_zero_size (p : Page) (i : nat) (el : HTMLElement) (m1 m2 : float) :
  nth_error (body p) i = Some el ->
  adjusted ICON_SELECTOR el = true ->
  aswOrgFontSize el = None -> computedFontSize el = 0 -> is_finite m1 = true ->
  exists el1 el2 : HTMLElement,
    nth_error (body (adjustFontSize ICON_SELECTOR (Some m1) p)) i = Some el1
    /\ nth_error (body (adjustFontSize ICON_SELECTOR (Some m2)
                          (adjustFontSize ICON_SELECTOR (Some m1) p))) i = Some el2
    /\ fontSizeStyle el1 = Some 8
    /\ aswOrgFontSize el1 = Some 0
    /\ aswOrgFontSize el2 = Some 8
    /\ fontSizeStyle el2 = if is_nan (8 * m2) then Some 8 else Some (clamp (8 * m2) 8 72).
Proof.
  intros Hnth Ha Hc Hz Hm.
  pose proof (adjustFontSize_nth_adjusted ICON_SELECTOR m1 p i el Hnth Ha) as H1.
  pose proof (visit_adjusted_again ICON_SELECTOR m1 el Ha) as Ha1.
  pose proof (adjustFontSize_nth_adjusted ICON_SELECTOR m2 _ i _ H1 Ha1) as H2.
  destruct (adjusted_split ICON_SELECTOR el Ha) as [_ Hs].
  destruct (adjusted_split ICON_SELECTOR _ Ha1) as [_ Hs1].
  exists (visit ICON_SELECTOR m1 el), (visit ICON_SELECTOR m2 (visit ICON_SELECTOR m1 el)).
  split; [exact H1|]. split; [exact H2|].
  assert (Hb : orgFontSize el = 0).
  { unfold orgFontSize. rewrite Hc, Hz. reflexivity. }
  assert (Hf1 : fontSizeStyle (visit ICON_SELECTOR m1 el) = Some 8).
  { rewrite (visit_adjusted ICON_SELECTOR m1 el Hs), fontSizeStyle_setFontSize.
    rewrite newFontSize_clamp, Hb. unfold clamp. rewrite (zero_product m1 Hm). reflexivity. }
  assert (Hc1 : aswOrgFontSize (visit ICON_SELECTOR m1 el) = Some 0).
  { rewrite (aswOrgFontSize_visit ICON_SELECTOR m1 el Hs), Hc, Hz. reflexivity. }
  assert (Hb1 : orgFontSize (visit ICON_SELECTOR m1 el) = 8).
  { unfold orgFontSize, computedFontSize. rewrite Hc1, Hf1. reflexivity. }
  split; [exact Hf1|]. split; [exact Hc1|]. split.
  - rewrite (aswOrgFontSize_visit ICON_SELECTOR m2 _ Hs1), Hc1.
    unfold computedFontSize. rewrite Hf1. reflexivity.
  - rewrite (fontSizeStyle_visit ICON_SELECTOR m2 _ Hs1), Hb1, Hf1. reflexivity.
Qed.

End Tool.

Local Open Scope string_scope.

(** A [span] collapsed to size 0. *)
Definition collapsed : HTMLElement :=
  {| tagName := "span"; classes := []; ancestors := [["row"]];
     offsetParent := true; textContent := Some "x";
     aswOrgFontSize := None; fontSizeStyle := None; cascadedFontSize := 0 |}.

Lemma adjustFontSize_within_bounds_witness :
  exists el' : HTMLElement,
    nth_error (body (adjustFontSize [] (Some 3%float) (pageOf [bigHeading]))) 0 = Some el'
    /\ (fontSizeStyle el' = fontSizeStyle bigHeading
        \/ exists px : float,
             fontSizeStyle el' = Some px /\ (8 <=? px)%float = true /\ (px <=? 72)%float = true).
Proof.
  exact (adjustFontSize_within_bounds [] (pageOf [bigHeading]) 0 bigHeading 3%float eq_refl eq_refl).
Defined.

Lemma adjustFontSize_zero_size_witness :
  exists el1 el2 : HTMLElement,
    nth_error (body (adjustFontSize [] (Some 2%float) (pageOf [collapsed]))) 0 = Some el1
    /\ nth_error (body (adjustFontSize [] (Some 2%float)
                          (adjustFontSize [] (Some 2%float) (pageOf [collapsed])))) 0 = Some el2
    /\ fontSizeStyle el1 = Some 8%float
    /\ aswOrgFontSize el1 = Some 0%float
    /\ aswOrgFontSize el2 = Some 8%float
    /\ fontSizeStyle el2 = Some 16%float.
Proof.
  exact (adjustFontSize_zero_size [] (pageOf [collapsed]) 0 collapsed 2%float 2%float
           eq_refl eq_refl eq_refl eq_refl eq_refl).
Defined.

End FontSizeMoreFacts.

(** ** The rate limiter *)

Module RateLimitFacts.
Import JsString SecurityManager.
Local Open Scope string_scope.
Local Open Scope Z_scope.

(** The key a client is counted under. *)
Definition bucket (clientId : option string) : string :=
  if truthy clientId then interpolate clientId else "anonymous".

Lemma mapGet_mapSet {V : Type} (key : string) (value : V) (m : list (string * V)) :
  mapGet key (mapSet key value m) = Some value.
Proof.
  induction m as [|[k v] rest IH]; simpl.
  - now rewrite String.eqb_refl.
  - destruct (String.eqb k key) eqn:E; simpl; rewrite E; [reflexivity | exact IH].
Qed.

Lemma mapGet_mapSet_other {V : Type} (key other : string) (value : V) (m : list (string * V)) :
  other <> key -> mapGet other (mapSet key value m) = mapGet other m.
Proof.
  intros H. induction m as [|[k v] rest IH]; simpl.
  - destruct (String.eqb_spec key other); [congruence | reflexivity].
  - destruct (String.eqb_spec k key) as [->|Hk]; simpl.
    + destruct (String.eqb_spec key other); [congruence | reflexivity].
    + now rewrite IH.
Qed.

(** Requests inside a running window: the counter climbs to the limit and
    stays there. *)
Lemma validateRequests_inside (config : RateLimitConfig) (clientId : option string)
    (later : list Z) (counts : list (string * RequestData)) (c r : Z) :
  mapGet (bucket clientId) counts = Some {| count := c; resetTime := r |} ->
  Forall (fun t => t <= r) later ->
  let c' := Z.min (c + Z.of_nat (List.length later)) (Z.max c (maxRequests config)) in
  fst (validateRequests config clientId later counts)
  = (repeat true (Z.to_nat (c' - c)) ++ repeat false (List.length later - Z.to_nat (c' - c)))%list
  /\ mapGet (bucket clientId) (snd (validateRequests config clientId later counts))
     = Some {| count := c'; resetTime := r |}.
Proof.
  revert counts c. induction later as [|t later IH]; intros counts c Hget Hall c'.
  - subst c'. simpl. replace (Z.min (c + 0) (Z.max c (maxRequests config))) with c by lia.
    rewrite Z.sub_diag. simpl. now split.
  - inversion Hall as [|? ? Ht Hall']; subst.
    cbn [validateRequests]. unfold validateRequest. fold (bucket clientId).
    rewrite Hget. cbn [resetTime count].
    destruct (Z.gtb_spec t r) as [Hgt|_]; [lia|].
    destruct (Z.geb_spec c (maxRequests config)) as [Hge|Hlt].
    + specialize (IH counts c Hget Hall').
      destruct (validateRequests config clientId later counts) as [answers counts2].
      cbn [fst snd] in *. destruct IH as [IH1 IH2].
      assert (E : c' = c) by (subst c'; cbn [List.length]; lia).
      replace (Z.min (c + Z.of_nat (List.length later)) (Z.max c (maxRequests config)))
        with c in IH1, IH2 by lia.
      rewrite E, Z.sub_diag in *. cbn [Z.to_nat repeat app] in *.
      rewrite Nat.sub_0_r in *. split; [cbn [List.length repeat]; now rewrite IH1 | exact IH2].
    + specialize (IH (mapSet (bucket clientId) {| count := c + 1; resetTime := r |} counts)
                     (c + 1) (mapGet_mapSet _ _ _) Hall').
      destruct (validateRequests config clientId later
                  (mapSet (bucket clientId) {| count := c + 1; resetTime := r |} counts))
        as [answers counts2].
      cbn [fst snd] in *. destruct IH as [IH1 IH2].
      assert (E : Z.min (c + 1 + Z.of_nat (List.length later)) (Z.max (c + 1) (maxRequests config)) = c')
        by (subst c'; cbn [List.length]; lia).
      rewrite E in IH1, IH2. split; [|exact IH2].
      assert (Hc : c + 1 <= c') by (subst c'; cbn [List.length]; lia).
      replace (Z.to_nat (c' - c)) with (S (Z.to_nat (c' - (c + 1)))) by lia.
      cbn [List.length repeat app Nat.sub]. now rewrite IH1.
Qed.

(** X10.  A client that is unknown, or whose window has run out, opens a window
    with its request at [t0]; of that request and the requests that follow
    no later than [t0 + windowMs], the first [max(1, maxRequests)] are
    accepted and all the others refused: the first request of a window is
    accepted whatever the limit. *)
Theorem validateRequests_window (config : RateLimitConfig) (clientId : option string)
    (t0 : Z) (later : list Z) (counts : list (string * RequestData)) :
  (mapGet (bucket clientId) counts = None
   \/ exists old, mapGet (bucket clientId) counts = Some old /\ resetTime old < t0) ->
  Forall (fun t => t <= t0 + windowMs config) later ->
  let accepted :=
    Z.to_nat (Z.min (1 + Z.of_nat (List.length later)) (Z.max 1 (maxRequests config))) in
  fst (validateRequests config clientId (t0 :: later) counts)
  = (repeat true accepted ++ repeat false (S (List.length later) - accepted))%list
  /\ mapGet (bucket clientId) (snd (validateRequests config clientId (t0 :: later) counts))
     = Some {| count := Z.of_nat accepted; resetTime := t0 + windowMs config |}.
Proof.
  intros Hstart Hall accepted.
  set (fresh := {| count := 1; resetTime := t0 + windowMs config |}).
  assert (H1 : validateRequest config clientId t0 counts
               = (true, mapSet (bucket clientId) fresh counts)).
  { unfold validateRequest. fold (bucket clientId). fold fresh.
    destruct Hstart as [->|[old [-> Hold]]]; [reflexivity|].
    destruct (Z.gtb_spec t0 (resetTime old)); [reflexivity | lia]. }
  cbn [validateRequests]. rewrite H1.
  pose proof (validateRequests_inside config clientId later
                (mapSet (bucket clientId) fresh counts) 1 (t0 + windowMs config)
                (mapGet_mapSet _ _ _) Hall) as H.
  destruct (validateRequests config clientId later (mapSet (bucket clientId) fresh counts))
    as [answers counts2].
  cbn [fst snd] in *. cbv zeta in H. destruct H as [H2 H3].
  assert (E : Z.min (1 + Z.of_nat (List.length later)) (Z.max 1 (maxRequests config))
              = Z.of_nat accepted) by (subst accepted; lia).
  rewrite E in H2, H3. split; [|exact H3].
  assert (Ha : (1 <= accepted)%nat) by (subst accepted; lia).
  rewrite H2. replace (Z.to_nat (Z.of_nat accepted - 1)) with (accepted - 1)%nat by lia.
  destruct accepted as [|n]; [lia|].
  cbn [repeat app Nat.sub]. now rewrite Nat.sub_0_r.
Qed.

Definition threePerSecond : RateLimitConfig := {| maxRequests := 3; windowMs := 1000 |}.

Lemma validateRequests_window_witness :
  fst (validateRequests threePerSecond (Some "site-a") [5000; 5100; 5200; 5300; 6000] [])
  = [true; true; true; false; false].
Proof.
  destruct (validateRequests_window threePerSecond (Some "site-a") 5000 [5100; 5200; 5300; 6000] []
              (or_introl eq_refl)) as [H _].
  - repeat constructor; cbn; lia.
  - exact H.
Defined.

(** X11.  A request of one client leaves the entries of the clients counted under
    other keys as they were, and a refused request leaves the whole map as
    it was. *)
Theorem validateRequest_frame (config : RateLimitConfig) (clientId : option string) (now : Z)
    (counts : list (string * RequestData)) :
  (forall other : string,
     other <> bucket clientId ->
     mapGet other (snd (validateRequest config clientId now counts)) = mapGet other counts)
  /\ (fst (validateRequest config clientId now counts) = false ->
      snd (validateRequest config clientId now counts) = counts).
Proof.
  unfold validateRequest. fold (bucket clientId). split.
  - intros other Hne.
    destruct (mapGet (bucket clientId) counts) as [data|]; cbn [snd].
    + destruct (now >? resetTime data); cbn [snd]; [now apply mapGet_mapSet_other|].
      destruct (count data >=? maxRequests config); cbn [snd];
        [reflexivity | now apply mapGet_mapSet_other].
    + now apply mapGet_mapSet_other.
  - destruct (mapGet (bucket clientId) counts) as [data|]; cbn [fst snd]; [|discriminate].
    destruct (now >? resetTime data); cbn [fst snd]; [discriminate|].
    destruct (count data >=? maxRequests config); cbn [fst snd]; [reflexivity | discriminate].
Qed.

End RateLimitFacts.

(** ** Script sources *)

Module SourceFacts.
Import JsString SecurityManager.
Local Open Scope string_scope.

Lemma prefix_append (p rest : string) : String.prefix p (p ++ rest) = true.
Proof.
  induction p as [|c p IH]; simpl; [now destruct rest|].
  destruct (ascii_dec c c); [exact IH | congruence].
Qed.

Lemma prefix_split (p s : string) : String.prefix p s = true -> exists rest, s = p ++ rest.
Proof.
  revert s. induction p as [|c p IH]; intros s H; simpl in *.
  - now exists s.
  - destruct s as [|b s]; simpl in H; [discriminate|].
    destruct (ascii_dec c b) as [->|]; [|discriminate].
    destruct (IH s H) as [rest ->]. now exists rest.
Qed.

(** X12.  [isAllowedSource] accepts exactly the URLs that begin with one of its
    four prefixes, so any continuation of a prefix is accepted, a longer
    host name included; a script without [src], or with an empty one, is
    never removed by [validateDOMIntegrity]; what that check keeps,
    [isAllowedSource] accepts; and a source on [fonts.gstatic.com], which
    [isAllowedSource] accepts, is removed by the check. *)
Theorem script_source_checks :
  (forall url : string,
     isAllowedSource url = true <->
     exists prefix rest, In prefix allowedPrefixes /\ url = prefix ++ rest)
  /\ (forall rest : string, isAllowedSource ("https://api.adasure.pro" ++ rest) = true)
  /\ scriptIsRemoved None = false
  /\ scriptIsRemoved (Some "") = false
  /\ (forall src : string,
        scriptIsRemoved (Some src) = false -> src = "" \/ isAllowedSource src = true)
  /\ (forall rest : string,
        isAllowedSource ("https://fonts.gstatic.com" ++ rest) = true
        /\ scriptIsRemoved (Some ("https://fonts.gstatic.com" ++ rest)) = true).
Proof.
  split; [|split; [|split; [|split; [|split]]]].
  - intros url. unfold isAllowedSource, startsWith. rewrite existsb_exists. split.
    + intros [p [Hin Hp]]. destruct (prefix_split p url Hp) as [rest ->]. eauto.
    + intros [p [rest [Hin ->]]]. exists p. split; [exact Hin | apply prefix_append].
  - intros rest. unfold isAllowedSource, allowedPrefixes, startsWith. cbn [existsb].
    now rewrite prefix_append.
  - reflexivity.
  - reflexivity.
  - intros src H. unfold scriptIsRemoved in H. cbn [truthy interpolate] in H.
    destruct src as [|c src]; [now left|]. right.
    cbn [nonEmpty andb] in H. apply negb_false_iff in H.
    unfold isAllowedSource, allowedPrefixes. unfold allowedSources in H.
    cbn [existsb] in *. rewrite orb_false_r in H.
    apply orb_true_iff in H as [H|H]; [now rewrite H|].
    apply orb_true_iff in H as [H|H]; rewrite H; now rewrite ?orb_true_r.
  - intros rest. split.
    + unfold isAllowedSource, allowedPrefixes, startsWith. cbn [existsb].
      rewrite (prefix_append "https://fonts.gstatic.com" rest). now rewrite !orb_true_r.
    + reflexivity.
Qed.

End SourceFacts.

(** ** The integrity hash *)

Module HashFacts.
Import SecurityManager.
Local Open Scope Z_scope.

Lemma toInt32_range (z : Z) : -2147483648 <= toInt32 z < 2147483648.
Proof. unfold toInt32. Z.div_mod_to_equations. lia. Qed.

Lemma toInt32_congruent (a b : Z) :
  a mod 4294967296 = b mod 4294967296 -> toInt32 a = toInt32 b.
Proof.
  intros H. unfold toInt32. f_equal.
  rewrite <- (Zplus_mod_idemp_l a), <- (Zplus_mod_idemp_l b). now rewrite H.
Qed.

Lemma toInt32_mod (a : Z) : toInt32 a mod 4294967296 = a mod 4294967296.
Proof. unfold toInt32. Z.div_mod_to_equations. lia. Qed.

(** One pass of the loop multiplies by 31 and adds the code unit, in 32-bit
    arithmetic. *)
Lemma hashStep_31 (hash : Z) (c : ascii) :
  hashStep hash c = toInt32 (31 * hash + charCode c).
Proof.
  unfold hashStep, and32, shl32. rewrite Z.land_diag.
  change (5 mod 32) with 5. rewrite Z.shiftl_mul_pow2 by lia. change (2 ^ 5) with 32.
  apply toInt32_congruent.
  assert (HA : toInt32 (toInt32 hash * 32) mod 4294967296 = (hash * 32) mod 4294967296).
  { rewrite toInt32_mod, <- Zmult_mod_idemp_l, toInt32_mod, Zmult_mod_idemp_l. reflexivity. }
  replace (toInt32 (toInt32 hash * 32) - hash + charCode c)
    with (toInt32 (toInt32 hash * 32) + (charCode c - hash)) by lia.
  rewrite <- Zplus_mod_idemp_l, HA, Zplus_mod_idemp_l. f_equal. lia.
Qed.

(** The polynomial the hash is the 32-bit image of. *)
Definition polynomial (codes : list ascii) (start : Z) : Z :=
  fold_left (fun acc c => 31 * acc + charCode c) codes start.

Lemma hash_fold (codes : list ascii) (a : Z) :
  fold_left hashStep codes (toInt32 a) = toInt32 (polynomial codes a).
Proof.
  unfold polynomial. revert a. induction codes as [|c codes IH]; intros a; [reflexivity|].
  cbn [fold_left]. rewrite hashStep_31, <- IH. f_equal.
  apply toInt32_congruent.
  rewrite <- Zplus_mod_idemp_l, <- Zmult_mod_idemp_r, toInt32_mod.
  now rewrite Zmult_mod_idemp_r, Zplus_mod_idemp_l.
Qed.

Lemma list_ascii_snoc (content : string) (c : ascii) :
  list_ascii_of_string (content ++ String c EmptyString)
  = (list_ascii_of_string content ++ [c])%list.
Proof. induction content as [|x content IH]; simpl; [reflexivity | now rewrite IH]. Qed.

(** X13.  The number [calculateFileHash] prints is the polynomial hash with
    multiplier 31 of the code units, wrapped into the signed 32-bit range:
    [h(s c) = toInt32(31 * h(s) + c)] with [h("") = 0]. *)
Theorem hashCode_polynomial (content : string) :
  hashCode content = toInt32 (polynomial (list_ascii_of_string content) 0)
  /\ -2147483648 <= hashCode content < 2147483648
  /\ forall c : ascii,
       hashCode (content ++ String c EmptyString) = toInt32 (31 * hashCode content + charCode c).
Proof.
  assert (H : hashCode content = toInt32 (polynomial (list_ascii_of_string content) 0)).
  { unfold hashCode. change 0 with (toInt32 0) at 1. apply hash_fold. }
  split; [exact H|]. split; [rewrite H; apply toInt32_range|].
  intros c. unfold hashCode.
  rewrite list_ascii_snoc, fold_left_app. cbn [fold_left]. apply hashStep_31.
Qed.

End HashFacts.

(** ** The security log *)

Module LogFacts.
Import SecurityManager.

(** X14.  After [logSecurityEvent] the stored list has at most 100 events, the
    new event is its last one, and it is the tail of the former list
    followed by the new event: nothing is dropped while fewer than 100
    events were stored. *)
Theorem logSecurityEvent_keeps_last_100 (event : SecurityEvent)
    (stored : option (list SecurityEvent)) :
  let before := match stored with Some l => l | None => [] end in
  exists dropped events : list SecurityEvent,
    logSecurityEvent event stored = Some events
    /\ List.length events <= 100
    /\ (before ++ [event])%list = (dropped ++ events)%list
    /\ nth_error events (List.length events - 1) = Some event
    /\ (List.length before < 100 -> dropped = []).
Proof.
  intros before. unfold logSecurityEvent. fold before.
  set (all := (before ++ [event])%list).
  assert (Hlen : List.length all = S (List.length before)).
  { unfold all. rewrite length_app. simpl. lia. }
  assert (Hlast : forall l : list SecurityEvent,
             nth_error (l ++ [event]) (List.length (l ++ [event]) - 1) = Some event).
  { intros l. rewrite length_app. simpl.
    rewrite nth_error_app2 by lia.
    replace (List.length l + 1 - 1 - List.length l) with 0 by lia. reflexivity. }
  destruct (Nat.ltb_spec 100 (List.length all)) as [Hbig|Hsmall].
  - exists (firstn (List.length all - 100) all), (skipn (List.length all - 100) all).
    split; [reflexivity|]. split; [rewrite length_skipn; lia|].
    split; [now rewrite firstn_skipn|]. split; [|lia].
    rewrite length_skipn.
    replace (List.length all - (List.length all - 100) - 1) with 99 by lia.
    rewrite nth_error_skipn.
    replace (List.length all - 100 + 99) with (List.length all - 1) by lia.
    apply Hlast.
  - exists [], all. split; [reflexivity|]. split; [lia|]. split; [reflexivity|].
    split; [apply Hlast | reflexivity].
Qed.

End LogFacts.

(** ** The compliance session *)

Module ComplianceFacts.
Import ComplianceReporting.
Local Open Scope string_scope.

Lemma has_In (s : list string) (x : string) : has s x = true <-> In x s.
Proof.
  unfold has. rewrite existsb_exists. split.
  - intros [y [Hy E]]. apply String.eqb_eq in E. now subst.
  - intros H. exists x. split; [exact H | apply String.eqb_refl].
Qed.

(** What every call keeps. *)
Definition consistent (st : Session) : Prop :=
  complianceScore st = 100%Z /\ featuresUsed st = features st /\ NoDup (features st).

Lemma trackFeatureUsage_consistent (name : string) (enabled : bool) (st : Session) :
  consistent st -> consistent (trackFeatureUsage name enabled st).
Proof.
  intros (Hs & Hu & Hn). unfold trackFeatureUsage.
  destruct enabled; cbn [andb]; [|now repeat split].
  destruct (has (features st) name) eqn:E; cbn [negb]; [now repeat split|].
  unfold updateComplianceScore, setAdd, consistent. cbn [features featuresUsed complianceScore].
  rewrite E. split; [lia|]. split; [now rewrite Hu|].
  apply NoDup_app; [exact Hn | repeat constructor; intros [] |].
  intros x Hx [<-|[]]. apply has_In in Hx. congruence.
Qed.

Lemma trackFeatureUsage_In (name : string) (enabled : bool) (st : Session) (f : string) :
  In f (features (trackFeatureUsage name enabled st))
  <-> In f (features st) \/ (f = name /\ enabled = true).
Proof.
  unfold trackFeatureUsage. destruct enabled; cbn [andb].
  - destruct (has (features st) name) eqn:E; cbn [negb].
    + apply has_In in E. split; [tauto | intros [?|[-> _]]; assumption].
    + unfold updateComplianceScore, setAdd. cbn [features]. rewrite E, in_app_iff. simpl.
      split; [intros [?|[<-|[]]]; tauto | intros [?|[-> _]]; tauto].
  - split; [tauto | intros [?|[_ ?]]; [assumption | discriminate]].
Qed.

Lemma trackAll_from (calls : list (string * bool)) (st : Session) :
  consistent st ->
  consistent (trackAll calls st)
  /\ forall f, In f (features (trackAll calls st)) <-> In f (features st) \/ In (f, true) calls.
Proof.
  unfold trackAll. revert st. induction calls as [|[name enabled] calls IH]; intros st Hc.
  - split; [exact Hc | simpl; tauto].
  - cbn [fold_left fst snd].
    destruct (IH _ (trackFeatureUsage_consistent name enabled st Hc)) as [H1 H2].
    split; [exact H1|]. intros f. rewrite H2, trackFeatureUsage_In. simpl. split.
    + intros [[?|[-> ->]]|?]; auto.
    + intros [?|[E|?]]; auto. inversion E; subst. auto.
Qed.

(** X15.  Over a whole session the compliance score stays 100, the bonus of two
    points per feature being cut off by the cap; [featuresUsed] lists,
    without repetition and in order of first use, exactly the features that
    were switched on at some point: switching one off removes nothing. *)
Theorem trackFeatureUsage_session (calls : list (string * bool)) :
  let st := trackAll calls newSession in
  complianceScore st = 100%Z
  /\ NoDup (featuresUsed st)
  /\ featuresUsed st = features st
  /\ forall f : string, In f (featuresUsed st) <-> In (f, true) calls.
Proof.
  intros st.
  destruct (trackAll_from calls newSession) as [(Hs & Hu & Hn) Hin].
  { repeat split. constructor. }
  fold st in Hs, Hu, Hn, Hin. split; [exact Hs|]. split; [now rewrite Hu|].
  split; [exact Hu|]. intros f. rewrite Hu, Hin. simpl. tauto.
Qed.

End ComplianceFacts.

(** ** Base64 and the XOR obfuscation *)

Module ObfuscationFacts.
Import JsString Obfuscation.
Local Open Scope string_scope.

(** Induction three bytes at a time. *)
Lemma list_ind3 {A : Type} (P : list A -> Prop) :
  P [] -> (forall a, P [a]) -> (forall a b, P [a; b]) ->
  (forall a b c l, P l -> P (a :: b :: c :: l)) ->
  forall l, P l.
Proof.
  intros H0 H1 H2 H3.
  assert (H : forall l, P l /\ (forall a, P (a :: l)) /\ (forall a b, P (a :: b :: l))).
  { induction l as [|x l (IHa & IHb & IHc)]; [now repeat split|].
    split; [apply IHb|]. split; [intros a; apply IHc|]. intros a b. apply H3, IHa. }
  intros l. apply H.
Qed.

Ltac arith := zify; Z.div_mod_to_equations; lia.

Lemma byte_bound (b : ascii) : nat_of_ascii b < 256.
Proof. apply nat_ascii_bounded. Qed.

Lemma sextetsOf_bounded (bytes : list ascii) : Forall (fun s => s < 64) (sextetsOf bytes).
Proof.
  induction bytes as [| a | a b | a b c l IH] using list_ind3; cbn [sextetsOf].
  - constructor.
  - pose proof (byte_bound a). repeat (apply Forall_cons; [arith|]). apply Forall_nil.
  - pose proof (byte_bound a). pose proof (byte_bound b).
    repeat (apply Forall_cons; [arith|]). apply Forall_nil.
  - pose proof (byte_bound a). pose proof (byte_bound b). pose proof (byte_bound c).
    repeat (apply Forall_cons; [arith|]). exact IH.
Qed.

Lemma sextetOf_charOf (n : nat) : n < 64 -> sextetOf (charOf n) = Some n.
Proof.
  intros H. do 64 (destruct n as [|n]; [reflexivity|]). exfalso. lia.
Qed.

Lemma charOf_plain (n : nat) :
  n < 64 -> Ascii.eqb (charOf n) padding = false /\ isAsciiWhitespace (charOf n) = false.
Proof.
  intros H. do 64 (destruct n as [|n]; [split; reflexivity|]). exfalso. lia.
Qed.

Lemma traverse_charOf (sextets : list nat) :
  Forall (fun s => s < 64) sextets -> traverse (map charOf sextets) = Some sextets.
Proof.
  induction 1 as [|s l Hs _ IH]; [reflexivity|].
  cbn [map traverse]. now rewrite (sextetOf_charOf s Hs), IH.
Qed.

Lemma group_of_three (a b c : ascii) :
  let n1 := nat_of_ascii a in
  let n2 := nat_of_ascii b in
  let n3 := nat_of_ascii c in
  n1 / 4 * 4 + ((n1 mod 4) * 16 + n2 / 16) / 16 = n1
  /\ (((n1 mod 4) * 16 + n2 / 16) mod 16) * 16 + ((n2 mod 16) * 4 + n3 / 64) / 4 = n2
  /\ (((n2 mod 16) * 4 + n3 / 64) mod 4) * 64 + n3 mod 64 = n3.
Proof.
  intros n1 n2 n3.
  pose proof (byte_bound a). pose proof (byte_bound b). pose proof (byte_bound c).
  subst n1 n2 n3. repeat split; arith.
Qed.

Lemma group_of_two (a b : ascii) :
  let n1 := nat_of_ascii a in
  let n2 := nat_of_ascii b in
  n1 / 4 * 4 + ((n1 mod 4) * 16 + n2 / 16) / 16 = n1
  /\ (((n1 mod 4) * 16 + n2 / 16) mod 16) * 16 + ((n2 mod 16) * 4) / 4 = n2.
Proof.
  intros n1 n2. pose proof (byte_bound a). pose proof (byte_bound b).
  subst n1 n2. repeat split; arith.
Qed.

Lemma group_of_one (a : ascii) :
  let n1 := nat_of_ascii a in n1 / 4 * 4 + ((n1 mod 4) * 16) / 16 = n1.
Proof. intros n1. pose proof (byte_bound a). subst n1. arith. Qed.

(** The six-bit values carry the bytes. *)
Lemma bytesOf_sextetsOf (bytes : list ascii) : bytesOf (sextetsOf bytes) = bytes.
Proof.
  induction bytes as [| a | a b | a b c l IH] using list_ind3; cbn [sextetsOf bytesOf].
  - reflexivity.
  - now rewrite (group_of_one a), ascii_nat_embedding.
  - destruct (group_of_two a b) as [-> ->]. now rewrite !ascii_nat_embedding.
  - destruct (group_of_three a b c) as (-> & -> & ->).
    now rewrite !ascii_nat_embedding, IH.
Qed.

(** What [btoa] writes before the padding. *)
Definition body (bytes : list ascii) : list ascii := map charOf (sextetsOf bytes).

Lemma body_plain (bytes : list ascii) :
  Forall (fun c => Ascii.eqb c padding = false /\ isAsciiWhitespace c = false) (body bytes).
Proof.
  unfold body. pose proof (sextetsOf_bounded bytes) as H.
  induction H as [|s l Hs _ IH]; cbn [map]; constructor; [now apply charOf_plain | exact IH].
Qed.

Lemma removeTrailingPadding_plain (l : list ascii) :
  Forall (fun c => Ascii.eqb c padding = false /\ isAsciiWhitespace c = false) l ->
  removeTrailingPadding l = l.
Proof.
  induction 1 as [|c l [Hc _] _ IH]; [reflexivity|].
  destruct l as [|d l]; cbn [removeTrailingPadding] in *; [now rewrite Hc | now rewrite IH].
Qed.

Lemma removeTrailingPadding_cons (c : ascii) (l : list ascii) :
  l <> [] -> removeTrailingPadding (c :: l) = c :: removeTrailingPadding l.
Proof. destruct l; [congruence | reflexivity]. Qed.

Lemma removeTrailingPadding_snoc (l : list ascii) :
  removeTrailingPadding (l ++ [padding]) = l.
Proof.
  induction l as [|c l IH]; [reflexivity|].
  cbn [app]. rewrite removeTrailingPadding_cons; [now rewrite IH|].
  destruct l; discriminate.
Qed.

Lemma paddingOf_cases (bytes : list ascii) :
  paddingOf bytes = [] \/ paddingOf bytes = [padding] \/ paddingOf bytes = [padding; padding].
Proof. unfold paddingOf. destruct (List.length bytes mod 3) as [|[|[|n]]]; auto. Qed.

(** The trailing padding, and nothing else, is removed. *)
Lemma padding_removed (bytes : list ascii) :
  removeTrailingPadding (removeTrailingPadding (body bytes ++ paddingOf bytes)) = body bytes.
Proof.
  pose proof (removeTrailingPadding_plain _ (body_plain bytes)) as Hb.
  destruct (paddingOf_cases bytes) as [-> | [-> | ->]].
  - rewrite app_nil_r. now rewrite !Hb.
  - now rewrite removeTrailingPadding_snoc, Hb.
  - change [padding; padding] with ([padding] ++ [padding])%list.
    now rewrite app_assoc, !removeTrailingPadding_snoc.
Qed.

Lemma filter_all {A : Type} (f : A -> bool) (l : list A) :
  Forall (fun x => f x = true) l -> filter f l = l.
Proof. induction 1 as [|x l Hx _ IH]; [reflexivity|]. cbn [filter]. now rewrite Hx, IH. Qed.

Lemma encoded_no_whitespace (bytes : list ascii) :
  filter (fun c => negb (isAsciiWhitespace c)) (body bytes ++ paddingOf bytes)
  = (body bytes ++ paddingOf bytes)%list.
Proof.
  apply filter_all, Forall_app. split.
  - eapply Forall_impl; [|apply body_plain]. intros c [_ Hc]. now rewrite Hc.
  - destruct (paddingOf_cases bytes) as [-> | [-> | ->]]; repeat constructor.
Qed.

(** The encoded length is a multiple of four, and the length without the
    padding never leaves remainder one. *)
Lemma encoded_length (bytes : list ascii) :
  List.length (body bytes ++ paddingOf bytes) mod 4 = 0
  /\ List.length (body bytes) mod 4 <> 1.
Proof.
  unfold body.
  induction bytes as [| a | a b | a b c l [IH1 IH2]] using list_ind3.
  - split; [reflexivity | discriminate].
  - split; [reflexivity | discriminate].
  - split; [reflexivity | discriminate].
  - assert (Hp : paddingOf (a :: b :: c :: l) = paddingOf l).
    { unfold paddingOf. cbn [List.length].
      replace (S (S (S (List.length l))) mod 3) with (List.length l mod 3); [reflexivity|].
      change (S (S (S (List.length l)))) with (3 + List.length l).
      rewrite Nat.add_comm. change 3 with (1 * 3) at 2. now rewrite Nat.Div0.mod_add. }
    rewrite Hp. cbn [sextetsOf map app List.length].
    rewrite length_app, length_map in *.
    split; arith.
Qed.

Lemma atob_btoa (s : string) : atob (btoa s) = Some s.
Proof.
  unfold atob, btoa. rewrite list_ascii_of_string_of_list_ascii.
  fold (body (list_ascii_of_string s)).
  rewrite encoded_no_whitespace.
  destruct (encoded_length (list_ascii_of_string s)) as [H0 H1].
  rewrite H0. cbn [Nat.eqb]. rewrite padding_removed.
  apply Nat.eqb_neq in H1. rewrite H1.
  unfold body. rewrite (traverse_charOf _ (sextetsOf_bounded _)). cbn [option_map].
  now rewrite bytesOf_sextetsOf, string_of_list_ascii_of_string.
Qed.

Lemma xorb_twice (a b : bool) : xorb (xorb a b) b = a.
Proof. now destruct a, b. Qed.

Lemma xorChar_twice (a b : ascii) : xorChar (xorChar a b) b = a.
Proof. destruct a, b. cbn [xorChar]. now rewrite !xorb_twice. Qed.

Lemma xorLoop_twice (keyString : list ascii) (i : nat) (data : list ascii) :
  xorLoop keyString i (xorLoop keyString i data) = data.
Proof.
  revert i. induction data as [|d data IH]; intros i; [reflexivity|].
  cbn [xorLoop]. now rewrite xorChar_twice, IH.
Qed.

(** X16.  For data and keys made of code units below 256: [btoa] followed by
    [atob] gives the string back, and [decryptSensitiveData] undoes
    [encryptSensitiveData] under the same key, the default key included
    (an empty key is the default key). *)
Theorem decrypt_encrypt (data : string) (key : option string) :
  atob (btoa data) = Some data
  /\ decryptSensitiveData (encryptSensitiveData data key) key = data
  /\ encryptSensitiveData data (Some "") = encryptSensitiveData data None.
Proof.
  split; [apply atob_btoa|]. split; [|reflexivity].
  unfold decryptSensitiveData, encryptSensitiveData.
  rewrite atob_btoa, list_ascii_of_string_of_list_ascii, xorLoop_twice.
  apply string_of_list_ascii_of_string.
Qed.

End ObfuscationFacts.

(** ** Concrete runs *)

Module Runs.
Import JsString SecurityManager RateLimitFacts.
Local Open Scope string_scope.

Definition busy : list (string * RequestData) :=
  [("site-a", {| count := 3; resetTime := 6000 |}); ("site-b", {| count := 1; resetTime := 6500 |})].

Lemma validateRequest_frame_witness :
  mapGet "site-b" (snd (validateRequest threePerSecond (Some "site-a") 5500 busy))
  = Some {| count := 1; resetTime := 6500 |}
  /\ snd (validateRequest threePerSecond (Some "site-a") 5500 busy) = busy.
Proof.
  destruct (validateRequest_frame threePerSecond (Some "site-a") 5500 busy) as [H1 H2].
  split; [apply H1; discriminate | apply H2; reflexivity].
Defined.

End Runs.

(** ** The font-size tool on a tree *)

Module FontSizeCascadeFacts.
Import JsString JsNumber FontSize FontSizeCascade JsNumberFacts FontSizeFacts.
Local Open Scope float_scope.

(** What the tool stored for each element: its cache and its font-size
    declaration. *)
Definition written (p : TreePage) : list (option float * option float) :=
  map (fun node => (aswOrgFontSize (element node), fontSizeStyle (element node))) (nodes p).

(** C4 (the code departs from it).  In [<p>Hello <span>world</span></p>]
    both elements have a computed size of 16px and no cache.
    [adjustFontSize(2)] sets the paragraph to 32px; the visit of the span
    comes after it, reads the size the span now inherits, 32px, caches that
    as its original size and sets the span to 64px.  The second
    [adjustFontSize(2)] works from the caches and leaves the same sizes:
    the span, whose computed size was 16px, ends at 64px, not 32px. *)
Theorem adjustFontSize_nested_compounds (ICON_SELECTOR : list string) :
  computedSizes (rootFontSize nestedPage) [] (nodes nestedPage) = [16; 16]
  /\ written nestedPage = [(None, None); (None, None)]
  /\ written (adjustFontSize ICON_SELECTOR (Some 2) nestedPage)
     = [(Some 16, Some 32); (Some 32, Some 64)]
  /\ written (adjustFontSize ICON_SELECTOR (Some 2)
               (adjustFontSize ICON_SELECTOR (Some 2) nestedPage))
     = [(Some 16, Some 32); (Some 32, Some 64)]
  /\ computedSizes 16 []
       (nodes (adjustFontSize ICON_SELECTOR (Some 2)
                 (adjustFontSize ICON_SELECTOR (Some 2) nestedPage)))
     = [32; 64].
Proof. repeat split. Qed.

Section Tool.
Variable ICON_SELECTOR : list string.

(** A truthy cache is the base size, whatever the cascade gives. *)
Lemma orgFontSize_cached (px b : float) (el : HTMLElement) :
  aswOrgFontSize el = Some b -> falsy b = false -> orgFontSize (withCascaded px el) = b.
Proof.
  intros Hc Hb. unfold orgFontSize, withCascaded. cbn [aswOrgFontSize]. now rewrite Hc, Hb.
Qed.

(** The element a pass leaves at a position is the visit of the element
    that was there, under the cascade of that moment. *)
Lemma visitAll_nth (multiply root : float) (todo : list Node) (sizes : list float)
    (i : nat) (node : Node) :
  nth_error todo i = Some node ->
  exists px : float,
    nth_error (visitAll ICON_SELECTOR multiply root sizes todo) i =
    Some {| parent := parent node; authorFontSize := authorFontSize node;
            element := if matchesFontSizeSelector (element node)
                       then visit ICON_SELECTOR multiply (withCascaded px (element node))
                       else withCascaded px (element node) |}.
Proof.
  revert sizes i. induction todo as [|n todo IH]; intros sizes i H.
  - destruct i; discriminate.
  - destruct i as [|i]; cbn [nth_error visitAll] in *.
    + injection H as ->. eexists. reflexivity.
    + apply IH, H.
Qed.

(** A pass on an adjusted element whose cache is truthy. *)
Lemma pass_cached (multiply : float) (p : TreePage) (i : nat) (node : Node) (b : float) :
  nth_error (nodes p) i = Some node ->
  adjusted ICON_SELECTOR (element node) = true ->
  aswOrgFontSize (element node) = Some b -> falsy b = false ->
  exists node' : Node,
    nth_error (nodes (adjustFontSize ICON_SELECTOR (Some multiply) p)) i = Some node'
    /\ adjusted ICON_SELECTOR (element node') = true
    /\ aswOrgFontSize (element node') = Some b
    /\ fontSizeStyle (element node') =
       if is_nan (b * multiply) then fontSizeStyle (element node)
       else Some (clamp (b * multiply) 8 72).
Proof.
  intros Hnth Ha Hc Hb.
  destruct (visitAll_nth multiply (rootFontSize p) (nodes p) [] i node Hnth) as [px Hpx].
  destruct (adjusted_split ICON_SELECTOR _ Ha) as [Hm Hs].
  rewrite Hm in Hpx. eexists. split; [exact Hpx|]. cbn [element].
  assert (Hs' : skipped ICON_SELECTOR (withCascaded px (element node)) = false) by exact Hs.
  split; [apply visit_adjusted_again; exact Ha|]. split.
  - rewrite (aswOrgFontSize_visit ICON_SELECTOR multiply _ Hs').
    cbn [withCascaded aswOrgFontSize]. now rewrite Hc, Hb.
  - rewrite (fontSizeStyle_visit ICON_SELECTOR multiply _ Hs').
    now rewrite (orgFontSize_cached px b (element node) Hc Hb).
Qed.

(** X7.  Once an element has a truthy size [b] in its cache, rescaling it
    does not compound, wherever it sits in the tree and whatever happens to
    its ancestors: [adjustFontSize(m2)] after [adjustFontSize(m1)] gives
    [clamp(b * m2, 8, 72)], as [adjustFontSize(m2)] alone does, and the
    cache keeps [b].  (An element that is not cached yet takes its base
    from the size it inherits at its first visit, see
    [adjustFontSize_nested_compounds].) *)
Theorem adjustFontSize_last_multiplier (p : TreePage) (i : nat) (node : Node) (b m1 m2 : float) :
  nth_error (nodes p) i = Some node ->
  adjusted ICON_SELECTOR (element node) = true ->
  aswOrgFontSize (element node) = Some b -> falsy b = false ->
  is_nan (b * m2) = false ->
  exists n1 n2 : Node,
    nth_error (nodes (adjustFontSize ICON_SELECTOR (Some m2) p)) i = Some n1
    /\ nth_error (nodes (adjustFontSize ICON_SELECTOR (Some m2)
                           (adjustFontSize ICON_SELECTOR (Some m1) p))) i = Some n2
    /\ fontSizeStyle (element n2) = Some (clamp (b * m2) 8 72)
    /\ fontSizeStyle (element n2) = fontSizeStyle (element n1)
    /\ aswOrgFontSize (element n2) = Some b.
Proof.
  intros Hnth Ha Hc Hb Hn.
  destruct (pass_cached m2 p i node b Hnth Ha Hc Hb) as (n1 & H1 & _ & _ & F1).
  destruct (pass_cached m1 p i node b Hnth Ha Hc Hb) as (n' & H' & Ha' & Hc' & _).
  destruct (pass_cached m2 _ i n' b H' Ha' Hc' Hb) as (n2 & H2 & _ & Hc2 & F2).
  exists n1, n2. rewrite Hn in F1, F2.
  split; [exact H1|]. split; [exact H2|]. split; [exact F2|].
  split; [now rewrite F1, F2 | exact Hc2].
Qed.

End Tool.

(** The nested page after a first [adjustFontSize(2)]: the span's cache
    holds 32. *)
Definition nestedPageScaled : TreePage := adjustFontSize [] (Some 2) nestedPage.

Lemma adjustFontSize_last_multiplier_witness :
  exists n1 n2 : Node,
    nth_error (nodes (adjustFontSize [] (Some 1.5) nestedPageScaled)) 1 = Some n1
    /\ nth_error (nodes (adjustFontSize [] (Some 1.5)
                           (adjustFontSize [] (Some 3) nestedPageScaled))) 1 = Some n2
    /\ fontSizeStyle (element n2) = Some 48
    /\ fontSizeStyle (element n2) = fontSizeStyle (element n1)
    /\ aswOrgFontSize (element n2) = Some 32.
Proof.
  apply (adjustFontSize_last_multiplier [] nestedPageScaled 1
           (nth 1 (nodes nestedPageScaled) nestedSpan) 32 3 1.5);
    vm_compute; reflexivity.
Defined.

End FontSizeCascadeFacts.
